(** * AI automatic video editor: the front-end logic, embedded and verified

    The development follows the three TypeScript sources:
    - [App.tsx]: file validation, the upload hand-off, the timer-driven
      processing simulation, suggestion generation and [formatTime];
    - [components/VideoTimeline.tsx]: the segment list shown on the timeline,
      its [formatTime] and the click-to-seek handler;
    - [components/ExportOptions.tsx]: the export size and time estimate,
      and the insights panel whose source follows it in that file.

    React state is threaded explicitly: every [setProjects(prev => ...)] is a
    function on the project list.  [Math.random] is a cursor into a stream of
    draws.  JavaScript numbers are exact rationals ([Q]) wherever the
    properties at stake are orders and bounds; the export estimate, whose
    value is a rounded product, is computed on binary64 floats as the engine
    does.  What is stated over the rationals is stated with room for the
    engine's rounding: a least number of runs is proved for draws in the
    closed interval [0, 1], and positions are bounded and ordered, not
    added up. *)

From Stdlib Require Import ZArith QArith Qround Lqa Lia.
From Stdlib Require Import List String Ascii Bool DecimalString.
From Stdlib Require Import Floats Uint63.
From Stdlib Require DecimalZ DecimalPos.
Import ListNotations.

(** ** JavaScript primitives used by the sources *)

Module JS.
Local Open Scope Q_scope.

Definition ltb (a b : Q) : bool := negb (Qle_bool b a).
Definition gtb (a b : Q) : bool := ltb b a.
Definition geb (a b : Q) : bool := Qle_bool b a.

(** [Math.min], [Math.max] and [Math.floor] on finite numbers. *)
Definition Math_min (a b : Q) : Q := if Qle_bool a b then a else b.
Definition Math_max (a b : Q) : Q := if Qle_bool a b then b else a.
Definition Math_floor (x : Q) : Z := Qfloor x.

(** [Math.round]: the nearest integer, ties going up. *)
Definition Math_round (x : Q) : Z := Qfloor (x + (1 # 2)).

(** The [%] operator for a non-zero divisor: the remainder takes the sign of
    the dividend. *)
Definition trunc (x : Q) : Z := if Qle_bool 0 x then Qfloor x else Qceiling x.
Definition rem (x y : Q) : Q := x - y * inject_Z (trunc (x / y)).

(** [Number.prototype.toString] on an integer: its decimal digits (the
    engine switches to exponent notation from 10^21 on). *)
Definition toString (n : Z) : string := NilZero.string_of_int (Z.to_int n).

Fixpoint replicate (n : nat) (c : ascii) : string :=
  match n with
  | O => EmptyString
  | S k => String c (replicate k c)
  end.

(** The character of a decimal digit. *)
Definition digit (n : Z) : ascii := ascii_of_nat (48 + Z.to_nat n).

(** [s.padStart(n, c)] with a one-character filler. *)
Definition padStart (n : nat) (c : ascii) (s : string) : string :=
  (replicate (n - String.length s) c ++ s)%string.

(** [x.toFixed(1)]: the sign, then the magnitude rounded to one decimal
    with ties going up. *)
Definition toFixed1 (x : Q) : string :=
  let m := if Qle_bool 0 x then x else - x in
  let n := Qfloor (m * 10 + (1 # 2)) in
  ((if Qle_bool 0 x then "" else "-")
     ++ toString (n / 10) ++ "." ++ toString (n mod 10))%string.

(** [Math.random]: a computation that reads the next draw of a stream. *)
Definition Rand (A : Type) : Type := (nat -> Q) -> nat -> A * nat.

Definition ret {A} (a : A) : Rand A := fun _ k => (a, k).

Definition bind {A B} (c : Rand A) (f : A -> Rand B) : Rand B :=
  fun rnd k => let (a, k') := c rnd k in f a rnd k'.

Definition Math_random : Rand Q := fun rnd k => (rnd k, S k).

(** The contract of [Math.random]: every draw lies in [0, 1). *)
Definition unit_draws (rnd : nat -> Q) : Prop :=
  forall k, 0 <= rnd k /\ rnd k < 1.

(** The same with the upper end included.  A lower bound on a number of
    runs is stated for these draws: in binary64 a sum such as
    [r * 8 + 2] can round to the value it has at [r = 1]. *)
Definition closed_draws (rnd : nat -> Q) : Prop :=
  forall k, 0 <= rnd k /\ rnd k <= 1.
End JS.

Declare Scope rand_scope.
Delimit Scope rand_scope with rand.
Notation "x <- c ;; f" := (JS.bind c (fun x => f))
  (at level 61, c at next level, right associativity) : rand_scope.

(** ** App.tsx *)

Module App.
Import JS.
Local Open Scope string_scope.
Local Open Scope Q_scope.
Local Open Scope rand_scope.

Module File.
Record t := mk { name : string; type : string; size : Z }.
End File.

Module Suggestion.
Record t := mk {
  type : string;
  title : string;
  description : string;
  confidence : Q;
  action : string
}.
End Suggestion.

Inductive Status := uploading | processing | completed | error.

Record VideoProject := mkProject {
  id : string;
  name : string;
  status : Status;
  progress : Q;
  duration : option string;
  size : option string;
  aiSuggestions : option (list Suggestion.t)
}.

(** The initial value of the [projects] state. *)
Definition initialProjects : list VideoProject :=
  [ mkProject "1" "Summer Vacation 2024.mp4" completed 100
      (Some "2:34") (Some "45.2 MB") None;
    mkProject "2" "Product Demo.mov" processing 67
      (Some "1:12") (Some "28.1 MB") None ].

(** The initial value of the [duration] state; [setDuration] is never
    called. *)
Definition duration_state : Q := 154.

(** *** validateVideoFile *)

Module Validation.
Record t := mk { valid : bool; error : option string }.
End Validation.

Definition maxSize : Z := 500 * 1024 * 1024.

Definition allowedTypes : list string :=
  ["video/mp4"; "video/mov"; "video/avi"; "video/mkv"; "video/webm"].

Definition includes (l : list string) (s : string) : bool :=
  existsb (String.eqb s) l.

Definition validateVideoFile (file : File.t) : Validation.t :=
  if negb (includes allowedTypes (File.type file)) then
    Validation.mk false
      (Some "Please upload a valid video file (MP4, MOV, AVI, MKV, WebM)")
  else if (File.size file >? maxSize)%Z then
    Validation.mk false (Some "File size must be less than 500MB")
  else
    Validation.mk true None.

(** *** handleFileUpload

    The handler is asynchronous: it runs up to the call of
    [blink.storage.upload], is re-entered by each [onProgress] callback, and
    resumes when the upload resolves or rejects. *)

(** [setProjects(prev => prev.map(p => p.id === id ? f p : p))] *)
Definition mapProject (pid : string) (f : VideoProject -> VideoProject)
    (prev : list VideoProject) : list VideoProject :=
  map (fun p => if String.eqb (id p) pid then f p else p) prev.

Definition newProjectFor (now : Z) (file : File.t) : VideoProject :=
  {| id := toString now;
     name := File.name file;
     status := uploading;
     progress := 0;
     duration := None;
     size := Some (toFixed1 (inject_Z (File.size file) / (1024 * 1024))
                   ++ " MB")%string;
     aiSuggestions := None |}.

Inductive Submission :=
| NotSignedIn
| UploadError (description : option string)
| Submitted (newProject : VideoProject).

(** Up to the first [await]: [user] is the signed-in user if any and [now]
    is the value of [Date.now()]. *)
Definition handleFileUpload (user : option string) (file : File.t) (now : Z)
    (projects : list VideoProject) : Submission * list VideoProject :=
  match user with
  | None => (NotSignedIn, projects)
  | Some _ =>
      let validation := validateVideoFile file in
      if negb (Validation.valid validation) then
        (UploadError (Validation.error validation), projects)
      else
        let newProject := newProjectFor now file in
        (Submitted newProject, newProject :: projects)
  end.

Definition onProgress (newId : string) (percent : Q)
    (prev : list VideoProject) : list VideoProject :=
  mapProject newId
    (fun p => mkProject (id p) (name p) (status p) (Math_min percent 15)
                (duration p) (size p) (aiSuggestions p)) prev.

Definition uploadResolved (newId : string)
    (prev : list VideoProject) : list VideoProject :=
  mapProject newId
    (fun p => mkProject (id p) (name p) processing 15
                (duration p) (size p) (aiSuggestions p)) prev.

Definition uploadRejected (newId : string)
    (prev : list VideoProject) : list VideoProject :=
  mapProject newId
    (fun p => mkProject (id p) (name p) error (progress p)
                (duration p) (size p) (aiSuggestions p)) prev.

(** *** generateAISuggestions

    [projects] is the list captured by the closure that started the job,
    not the current state: when the job is not in it the function returns
    before drawing anything. *)

Definition audioIssues : list string :=
  ["Audio delay detected"; "Background noise found";
   "Volume inconsistency detected"].

Definition audioSuggestion : Rand Suggestion.t :=
  r4 <- Math_random ;;
  let length := inject_Z (Z.of_nat (List.length audioIssues)) in
  let issue :=
    nth (Z.to_nat (Math_floor (r4 * length))) audioIssues "undefined" in
  r5 <- Math_random ;;
  r6 <- Math_random ;;
  let timestamp :=
    (toString (Math_floor (r5 * 3)) ++ ":"
       ++ padStart 2 "0" (toString (Math_floor (r6 * 60))))%string in
  r7 <- Math_random ;;
  ret (Suggestion.mk "audio_sync" "Audio Enhancement"
         (issue ++ " at " ++ timestamp ++ ". Auto-fix available.")
         (0.75 + r7 * 0.15) "fix_audio").

Definition drawSuggestions : Rand (list Suggestion.t) :=
  r1 <- Math_random ;;
  let sceneCount := (Math_floor (r1 * 12) + 3)%Z in
  r2 <- Math_random ;;
  let scene :=
    Suggestion.mk "scene_detection" "Scene Detection"
      ("Found " ++ toString sceneCount
         ++ " distinct scenes. Auto-cut recommended.")
      (0.85 + r2 * 0.1) "auto_cut" in
  r3 <- Math_random ;;
  audio <- (if gtb r3 0.3
            then a <- audioSuggestion ;; ret [a]
            else ret []) ;;
  r8 <- Math_random ;;
  let qualityImprovement := (Math_floor (r8 * 25) + 10)%Z in
  r9 <- Math_random ;;
  let quality :=
    Suggestion.mk "quality_enhancement" "Quality Enhancement"
      ("Video quality can be improved by " ++ toString qualityImprovement
         ++ "%.")
      (0.70 + r9 * 0.2) "enhance_quality" in
  ret (scene :: audio ++ [quality]).

Definition confident (s : Suggestion.t) : Prop :=
  0 <= Suggestion.confidence s /\ Suggestion.confidence s <= 1.

Definition setSuggestions (projectId : string)
    (suggestions : list Suggestion.t)
    (prev : list VideoProject) : list VideoProject :=
  mapProject projectId
    (fun p => mkProject (id p) (name p) (status p) (progress p)
                (duration p) (size p) (Some suggestions)) prev.

Definition findProject (projectId : string)
    (l : list VideoProject) : option VideoProject :=
  find (fun p => String.eqb (id p) projectId) l.

(** Returns the suggestions it produced, if any, and the updated state. *)
Definition generateAISuggestions (projects : list VideoProject)
    (projectId : string) (prev : list VideoProject)
    : Rand (option (list Suggestion.t) * list VideoProject) :=
  match findProject projectId projects with
  | None => ret (None, prev)
  | Some _ =>
      suggestions <- drawSuggestions ;;
      ret (Some suggestions, setSuggestions projectId suggestions prev)
  end.

(** *** simulateProcessing *)

Module Step.
Record t := mk { step : string; progress : Q }.
End Step.

Definition processingSteps : list Step.t :=
  [ Step.mk "Uploading video..." 15;
    Step.mk "Analyzing video content..." 30;
    Step.mk "Detecting scenes and cuts..." 45;
    Step.mk "Processing audio tracks..." 60;
    Step.mk "Applying AI enhancements..." 75;
    Step.mk "Generating transitions..." 90;
    Step.mk "Finalizing output..." 100 ].

(** The two variables the interval callback closes over. *)
Module Sim.
Record t := mk { progress : Q; currentStepIndex : nat }.
End Sim.

Definition simulateProcessing : Sim.t := Sim.mk 0 0.

Inductive Timer := Running | Cleared.

(** First half of the callback: advance [progress] or the step index.
    [None] is the [TypeError] of reading [.progress] off an undefined
    step. *)
Definition advance (s : Sim.t) : Rand (option Sim.t) :=
  match nth_error processingSteps (Sim.currentStepIndex s) with
  | None => ret None
  | Some currentStep =>
      let targetProgress := Step.progress currentStep in
      if ltb (Sim.progress s) targetProgress then
        r <- Math_random ;;
        ret (Some (Sim.mk
                     (Math_min (Sim.progress s + (r * 8 + 2)) targetProgress)
                     (Sim.currentStepIndex s)))
      else
        ret (Some (Sim.mk (Sim.progress s) (S (Sim.currentStepIndex s))))
  end.

Definition finished (s : Sim.t) : bool :=
  geb (Sim.progress s) 100
  || (List.length processingSteps <=? Sim.currentStepIndex s)%nat.

(** One run of the interval callback on the current state [prev]. *)
Definition tick (projects : list VideoProject) (projectId : string)
    (s : Sim.t) (prev : list VideoProject)
    : Rand (option (Timer * Sim.t * list VideoProject)) :=
  o <- advance s ;;
  match o with
  | None => ret None
  | Some s' =>
      if finished s' then
        let done :=
          mapProject projectId
            (fun p => mkProject (id p) (name p) completed 100
                        (Some "1:45"%string) (size p) (aiSuggestions p))
            prev in
        g <- generateAISuggestions projects projectId done ;;
        ret (Some (Cleared, Sim.mk 100 (Sim.currentStepIndex s'), snd g))
      else
        let status := if ltb (Sim.progress s') 20
                      then uploading else processing in
        ret (Some (Running, s',
                   mapProject projectId
                     (fun p => mkProject (id p) (name p) status
                                 (Sim.progress s') (duration p) (size p)
                                 (aiSuggestions p))
                     prev))
  end.

(** *** formatTime *)

Definition formatTime (seconds : Q) : string :=
  let mins := Math_floor (seconds / 60) in
  let secs := Math_floor (rem seconds 60) in
  (toString mins ++ ":" ++ padStart 2 "0" (toString secs))%string.

(** *** One job, from submission to its end

    The events that reach a job once [handleFileUpload] has created it, in
    the order the runtime delivers them. *)

Inductive Event :=
| TransportProgress (percent : Q)
| TransportComplete
| TransportFailed
| TimerTick.

Inductive Phase :=
| Transporting
| Simulating (s : Sim.t)
| Stopped.

Record Job := mkJob {
  phase : Phase;
  state : list VideoProject;
  cursor : nat
}.

Section Lifecycle.
Variable rnd : nat -> Q.
(** The list captured by the handler's closure, and the job's id. *)
Variable projects : list VideoProject.
Variable projectId : string.

Definition deliver (j : Job) (e : Event) : Job :=
  match phase j, e with
  | Transporting, TransportProgress percent =>
      mkJob Transporting (onProgress projectId percent (state j)) (cursor j)
  | Transporting, TransportComplete =>
      mkJob (Simulating simulateProcessing)
            (uploadResolved projectId (state j)) (cursor j)
  | Transporting, TransportFailed =>
      mkJob Stopped (uploadRejected projectId (state j)) (cursor j)
  | Simulating s, TimerTick =>
      match tick projects projectId s (state j) rnd (cursor j) with
      | (Some (Running, s', st), k) => mkJob (Simulating s') st k
      | (Some (Cleared, _, st), k) => mkJob Stopped st k
      | (None, k) => mkJob (Simulating s) (state j) k
      end
  | _, _ => j
  end.

(** Every state the job goes through, the first one included. *)
Fixpoint observe (j : Job) (events : list Event) : list Job :=
  match events with
  | [] => [j]
  | e :: rest => j :: observe (deliver j e) rest
  end.

Definition run (j : Job) (events : list Event) : Job :=
  fold_left deliver events j.
End Lifecycle.

(** The job as [handleFileUpload] leaves it at its first [await]. *)
Definition submitted (newProject : VideoProject)
    (projects : list VideoProject) : Job :=
  mkJob Transporting (newProject :: projects) 0.

(** What an observer of the [projects] state sees of one job. *)
Definition jobOf (projectId : string) (j : Job) : option VideoProject :=
  findProject projectId (state j).

Definition snapshot (projectId : string) (j : Job) : option (Status * Q) :=
  option_map (fun p => (status p, Qred (progress p))) (jobOf projectId j).

(** A job that has not reached [completed] or [error]. *)
Definition active (p : VideoProject) : bool :=
  match status p with
  | uploading | processing => true
  | completed | error => false
  end.

(** What holds of a job in each phase: it heads the list under its id;
    while the upload runs it is [uploading] at 15 at most; while the timer
    runs it is below 100 and the step index is in range; once stopped it
    is either [completed] at 100 or an upload [error]. *)
Definition coherent (projectId : string) (j : Job) : Prop :=
  exists p rest,
    state j = p :: rest /\ id p = projectId /\
    match phase j with
    | Transporting => status p = uploading /\ progress p <= 15
    | Simulating s =>
        (status p = uploading \/ status p = processing)
        /\ progress p < 100 /\ Sim.progress s < 100
        /\ (Sim.currentStepIndex s < List.length processingSteps)%nat
    | Stopped =>
        (status p = completed /\ progress p == 100)
        \/ (status p = error /\ progress p <= 15)
    end.

(** The target of step [i] and the progress the step starts from, which is
    the target of the step before it. *)
Definition targetOf (i : nat) : Q :=
  match nth_error processingSteps i with
  | Some currentStep => Step.progress currentStep
  | None => 100
  end.

Definition baseOf (i : nat) : Q :=
  match i with
  | O => 0
  | S i' => targetOf i'
  end.

Definition inStep (s : Sim.t) : Prop :=
  (Sim.currentStepIndex s < List.length processingSteps)%nat
  /\ baseOf (Sim.currentStepIndex s) <= Sim.progress s
  /\ Sim.progress s <= targetOf (Sim.currentStepIndex s).

(** A count that every tick raises: nine per step passed, eight for a step
    whose target is reached, and otherwise one per two points gained. *)
Definition potential (s : Sim.t) : Z :=
  9 * Z.of_nat (Sim.currentStepIndex s)
  + (if geb (Sim.progress s) (targetOf (Sim.currentStepIndex s))
     then 8
     else Qfloor ((Sim.progress s - baseOf (Sim.currentStepIndex s)) / 2)).

Definition activeFor (asset : string)
    (l : list VideoProject) : list VideoProject :=
  filter (fun p => String.eqb (name p) asset && active p) l.

(** *** handleInputChange and handleDrop

    [files] is the file list of the event; [None] and [InvalidFile] are the
    cases in which [handleFileUpload] is not called. *)

Definition handleInputChange (user : option string) (files : list File.t)
    (now : Z) (projects : list VideoProject)
    : option Submission * list VideoProject :=
  match files with
  | file :: _ =>
      let r := handleFileUpload user file now projects in
      (Some (fst r), snd r)
  | [] => (None, projects)
  end.

Inductive Drop :=
| InvalidFile
| Dropped (s : Submission).

Definition isVideo (file : File.t) : bool :=
  String.prefix "video/" (File.type file).

Definition handleDrop (user : option string) (files : list File.t)
    (now : Z) (projects : list VideoProject) : Drop * list VideoProject :=
  match find isVideo files with
  | Some videoFile =>
      let r := handleFileUpload user videoFile now projects in
      (Dropped (fst r), snd r)
  | None => (InvalidFile, projects)
  end.

(** *** What the page derives from the [projects] state *)

Definition Status_eqb (a b : Status) : bool :=
  match a, b with
  | uploading, uploading | processing, processing
  | completed, completed | error, error => true
  | _, _ => false
  end.

(** The suggestions panel: those of the first completed project that has
    any field [aiSuggestions], or none. *)
Definition shownSuggestions (projects : list VideoProject)
    : list Suggestion.t :=
  match find (fun p => Status_eqb (status p) completed
                       && match aiSuggestions p with
                          | Some _ => true
                          | None => false
                          end) projects with
  | Some completedProject =>
      match aiSuggestions completedProject with
      | Some suggestions => suggestions
      | None => []
      end
  | None => []
  end.

Definition confidencePercent (s : Suggestion.t) : Z :=
  Math_round (Suggestion.confidence s * 100).

(** The [isProcessing] prop handed to the insights panel. *)
Definition isProcessing (projects : list VideoProject) : bool :=
  existsb (fun p => Status_eqb (status p) processing) projects.

(** The progress an observer reads off a job, and a list of readings that
    never goes down. *)
Definition progressOf (projectId : string) (j : Job) : Q :=
  match jobOf projectId j with
  | Some p => progress p
  | None => 0
  end.

Fixpoint nondecreasing (l : list Q) : Prop :=
  match l with
  | a :: (b :: _) as rest => a <= b /\ nondecreasing rest
  | _ => True
  end.

(** The job once its upload has resolved and the first tick has run. *)
Definition ticking (rnd : nat -> Q) (projects : list VideoProject)
    (now : Z) (file : File.t) : Job :=
  run rnd projects (id (newProjectFor now file))
    (submitted (newProjectFor now file) projects)
    [TransportComplete; TimerTick].

(** While the timer runs the job shows the timer's counter; once it has
    stopped the job shows 100. *)
Definition synced (projectId : string) (j : Job) : Prop :=
  exists p rest,
    state j = p :: rest /\ id p = projectId /\
    match phase j with
    | Transporting => False
    | Simulating s =>
        progress p = Sim.progress s
        /\ 0 <= Sim.progress s /\ Sim.progress s < 100
        /\ (Sim.currentStepIndex s < List.length processingSteps)%nat
    | Stopped => progress p = 100
    end.

(** No project of the list carries suggestions. *)
Definition unsuggested (l : list VideoProject) : Prop :=
  Forall (fun p => aiSuggestions p = None) l.

(** A count that a tick lowers by one at most.  A step whose target is
    more than 10 away takes two increases at least, any other unfinished
    step one; each of the first six steps takes one more tick to pass to
    the next; the last step ends with the increase that reaches 100. *)
Definition remaining (s : Sim.t) : Z :=
  let current : Z :=
    if geb (Sim.progress s) (targetOf (Sim.currentStepIndex s)) then 0%Z
    else if ltb (Sim.progress s + 10) (targetOf (Sim.currentStepIndex s))
         then 2%Z
         else 1%Z in
  if (Sim.currentStepIndex s <? 6)%nat
  then (3 * (5 - Z.of_nat (Sim.currentStepIndex s)) + 2 + current)%Z
  else current.
End App.

(** ** components/VideoTimeline.tsx *)

Module VideoTimeline.
Import JS.
Local Open Scope string_scope.
Local Open Scope Q_scope.

Inductive SegmentType := scene | transition | audio | effect.

Record TimelineSegment := mkSegment {
  id : string;
  start : Q;
  end_ : Q;
  type : SegmentType;
  confidence : Q;
  label : string;
  color : string
}.

Definition defaultSegments : list TimelineSegment :=
  [ mkSegment "1" 0 25 scene 0.92 "Opening Scene" "bg-blue-500";
    mkSegment "2" 25 45 transition 0.78 "Fade Transition" "bg-purple-500";
    mkSegment "3" 45 85 scene 0.89 "Main Content" "bg-green-500";
    mkSegment "4" 85 120 audio 0.85 "Music Overlay" "bg-yellow-500";
    mkSegment "5" 120 154 scene 0.94 "Closing Scene" "bg-red-500" ].

(** The list the timeline draws; [segments] is the optional prop, [[]] when
    the caller leaves it out. *)
Definition timelineSegments
    (segments : list TimelineSegment) : list TimelineSegment :=
  if (0 <? List.length segments)%nat then segments else defaultSegments.

Definition formatTime (seconds : Q) : string :=
  let mins := Math_floor (seconds / 60) in
  let secs := Math_floor (rem seconds 60) in
  (toString mins ++ ":" ++ padStart 2 "0" (toString secs))%string.

Definition getSegmentWidth (duration : Q) (segment : TimelineSegment) : Q :=
  ((end_ segment - start segment) / duration) * 100.

Definition getSegmentLeft (duration : Q) (segment : TimelineSegment) : Q :=
  (start segment / duration) * 100.

(** The part of [getBoundingClientRect()] the click handler reads. *)
Record Rect := mkRect { left : Q; width : Q }.

(** [newTime]: the time under the pointer.  The quotient is the JavaScript
    one only for a rectangle of non-zero width. *)
Definition newTime (rect : Rect) (clientX duration : Q) : Q :=
  let clickX := clientX - left rect in
  let percentage := clickX / width rect in
  percentage * duration.

(** The argument [onTimeChange] is called with; [None] when the handler
    returns early because [timelineRef.current] is null. *)
Definition handleTimelineClick (timelineRef : option Rect)
    (clientX duration : Q) : option Q :=
  match timelineRef with
  | None => None
  | Some rect =>
      Some (Math_max 0 (Math_min duration (newTime rect clientX duration)))
  end.

(** *** What the specification asks of a segment index *)

Definition disjoint (a b : TimelineSegment) : Prop :=
  end_ a <= start b \/ end_ b <= start a.

Definition non_overlapping (l : list TimelineSegment) : Prop :=
  forall i j a b, i <> j ->
    nth_error l i = Some a -> nth_error l j = Some b -> disjoint a b.

Definition ascending (l : list TimelineSegment) : Prop :=
  forall i j a b, (i < j)%nat ->
    nth_error l i = Some a -> nth_error l j = Some b -> start a <= start b.

Definition within (duration : Q) (s : TimelineSegment) : Prop :=
  0 <= start s /\ start s < end_ s /\ end_ s <= duration.

Definition well_formed (duration : Q) (l : list TimelineSegment) : Prop :=
  non_overlapping l /\ ascending l /\ Forall (within duration) l.

(** A linear check: every segment lies within the video and ends no later
    than the next one starts. *)
Definition withinb (duration : Q) (s : TimelineSegment) : bool :=
  Qle_bool 0 (start s) && ltb (start s) (end_ s)
  && Qle_bool (end_ s) duration.

Fixpoint chained (l : list TimelineSegment) : bool :=
  match l with
  | a :: (b :: _) as rest => Qle_bool (end_ a) (start b) && chained rest
  | _ => true
  end.

Definition check (duration : Q) (l : list TimelineSegment) : bool :=
  forallb (withinb duration) l && chained l.

(** *** The playhead, the markers and the selection *)

Definition getCurrentPosition (currentTime duration : Q) : Q :=
  (currentTime / duration) * 100.

(** [Array.from({ length: n }, (_, i) => ...)]: a negative length counts as
    zero. *)
Definition indices (n : Z) : list Z :=
  map Z.of_nat (seq 0 (Z.to_nat n)).

(** The left offsets, in percent, of the marks drawn every 10 seconds. *)
Definition timeMarkers (duration : Q) : list Q :=
  map (fun i => (inject_Z i * 10 / duration) * 100)
      (indices (Math_floor (duration / 10) + 1)).

(** The offsets and labels of the scale drawn every 30 seconds. *)
Definition timeScale (duration : Q) : list (Q * string) :=
  map (fun i => ((inject_Z i * 30 / duration) * 100,
                 formatTime (inject_Z i * 30)))
      (indices (Math_floor (duration / 30) + 1)).

(** The click handler of a segment, on the [selectedSegment] state. *)
Definition clickSegment (selectedSegment : option string)
    (segment : TimelineSegment) : option string :=
  match selectedSegment with
  | Some selected =>
      if String.eqb selected (id segment) then None else Some (id segment)
  | None => Some (id segment)
  end.

(** The segment whose details are shown: none while [selectedSegment] is
    null or the empty string, else the first drawn segment with that id. *)
Definition segmentDetails (segments : list TimelineSegment)
    (selectedSegment : option string) : option TimelineSegment :=
  match selectedSegment with
  | Some selected =>
      if String.eqb selected "" then None
      else find (fun s => String.eqb (id s) selected)
             (timelineSegments segments)
  | None => None
  end.
End VideoTimeline.

(** ** components/ExportOptions.tsx *)

Set Warnings "-inexact-float".

Module ExportOptions.
Local Open Scope string_scope.
Local Open Scope float_scope.

Record ExportSettings := mkSettings {
  format : string;
  resolution : string;
  quality : float;
  bitrate : float;
  fps : float;
  codec : string;
  audioQuality : float;
  includeSubtitles : bool;
  watermark : bool
}.

(** The initial value of the [customSettings] state. *)
Definition initialSettings : ExportSettings :=
  mkSettings "mp4" "1920x1080" 80 8000 30 "h264" 192 false false.

(** [Math.floor] and [Math.round] on binary64.  Below 2^52 in magnitude,
    adding and removing 2^52 rounds to an integer; from 2^52 on, and for
    NaN and the infinities, the argument is already the result. *)
Definition two52 : float := 4503599627370496.

Definition Math_floor (x : float) : float :=
  if (abs x <? two52) && negb (x =? 0) then
    let t := if 0 <? x then (x + two52) - two52 else (x - two52) + two52 in
    if x <? t then t - 1 else t
  else x.

(** Ties go towards +infinity; a zero result keeps the sign of [x]. *)
Definition Math_round (x : float) : float :=
  if (abs x <? two52) && negb (x =? 0) then
    let f := Math_floor x in
    let r := if 0.5 <=? x - f then f + 1 else f in
    if (r =? 0) && (x <? 0) then - 0 else r
  else x.

(** The object literal indexed by [settings.resolution], read as the map of
    its own keys.  Under the name of a member of [Object.prototype]
    JavaScript finds that member instead, a function or an object, which
    [|| 1] keeps and the products turn into NaN; [inherited] tells these
    names, and the statements about the multiplier leave them out. *)
Definition resolutionTable : list (string * float) :=
  [ ("3840x2160", 4); ("1920x1080", 1);
    ("1280x720", 0.6); ("854x480", 0.3) ].

Fixpoint lookup (key : string) (table : list (string * float))
    : option float :=
  match table with
  | [] => None
  | (k, v) :: rest => if String.eqb k key then Some v else lookup key rest
  end.

(** The property names every object literal inherits. *)
Definition prototypeMembers : list string :=
  [ "constructor"; "hasOwnProperty"; "isPrototypeOf";
    "propertyIsEnumerable"; "toLocaleString"; "toString"; "valueOf";
    "__proto__"; "__defineGetter__"; "__defineSetter__";
    "__lookupGetter__"; "__lookupSetter__" ].

Definition inherited (key : string) : bool :=
  existsb (String.eqb key) prototypeMembers.

(** [v || d]: [undefined], zero and NaN give way to [d]. *)
Definition or_else (v : option float) (d : float) : float :=
  match v with
  | Some x => if (x =? 0) || negb (x =? x) then d else x
  | None => d
  end.

Record Estimates := mkEstimates {
  estimatedSizeMB : float;
  estimatedTimeMin : float
}.

(** The two numbers [updateEstimates] computes; the component stores them
    rendered as "~N MB" and "N-(N+1) minutes". *)
Definition updateEstimates (settings : ExportSettings) : Estimates :=
  let resolutionMultiplier :=
    or_else (lookup (resolution settings) resolutionTable) 1 in
  let qualityMultiplier := quality settings / 100 in
  let baseSize := 45 in
  let baseTime := 2 in
  mkEstimates
    (Math_round (baseSize * resolutionMultiplier * qualityMultiplier))
    (Math_round (baseTime * resolutionMultiplier * qualityMultiplier)).

(** The settings a preset installs before the estimates are refreshed;
    [None] for an id that is not a preset. *)
Definition handlePresetSelect (presetId : string)
    (customSettings : ExportSettings) : option ExportSettings :=
  let s := customSettings in
  let settings resolution quality bitrate :=
    Some (mkSettings (format s) resolution quality bitrate (fps s) (codec s)
            (audioQuality s) (includeSubtitles s) (watermark s)) in
  if String.eqb presetId "youtube" then settings "1920x1080" 80 8000
  else if String.eqb presetId "instagram" then settings "1080x1080" 75 6000
  else if String.eqb presetId "tiktok" then settings "1080x1920" 75 6000
  else if String.eqb presetId "web" then settings "1280x720" 65 4000
  else if String.eqb presetId "high_quality"
    then settings "3840x2160" 95 20000
  else if String.eqb presetId "compressed" then settings "854x480" 50 2000
  else None.

(** The multiplier that the lookup with its fallback comes to, by cases
    on the resolution. *)
Definition multiplier_of (resolution : string) : float :=
  if String.eqb resolution "3840x2160" then 4
  else if String.eqb resolution "1920x1080" then 1
  else if String.eqb resolution "1280x720" then 0.6
  else if String.eqb resolution "854x480" then 0.3
  else 1.

(** *** The values the custom-settings controls can produce *)


Definition float_of_Z (z : Z) : float := PrimFloat.of_uint63 (Uint63.of_Z z).


(** The estimate as the specification words it: the multipliers as exact
    fractions, and round(45 x m x quality / 100) in exact arithmetic, ties
    up, for a quality of [q] percent. *)
Definition exact_multiplier (resolution : string) : Q :=
  if String.eqb resolution "3840x2160" then 4
  else if String.eqb resolution "1920x1080" then 1
  else if String.eqb resolution "1280x720" then 6 # 10
  else if String.eqb resolution "854x480" then 3 # 10
  else 1.

Definition exact_size (resolution : string) (q : Z) : Z :=
  Qfloor (45 * exact_multiplier resolution * (inject_Z q / 100) + (1 # 2))%Q.





(** *** The preset cards *)

(** A card of the preset list, without its icon. *)
Module Preset.
Record t := mk {
  id : string;
  name : string;
  description : string;
  format : string;
  resolution : string;
  quality : string;
  size : string;
  recommended : bool
}.
End Preset.

Definition exportPresets : list Preset.t :=
  [ Preset.mk "youtube" "YouTube" "Optimized for YouTube upload"
      "MP4" "1920×1080" "High" "~45 MB" true;
    Preset.mk "instagram" "Instagram" "Square format for social media"
      "MP4" "1080×1080" "High" "~32 MB" false;
    Preset.mk "tiktok" "TikTok" "Vertical format for short videos"
      "MP4" "1080×1920" "High" "~28 MB" false;
    Preset.mk "web" "Web" "Optimized for web streaming"
      "MP4" "1280×720" "Medium" "~22 MB" false;
    Preset.mk "high_quality" "High Quality" "Maximum quality for archival"
      "MOV" "3840×2160" "Ultra" "~180 MB" false;
    Preset.mk "compressed" "Compressed" "Small file size for sharing"
      "MP4" "854×480" "Low" "~12 MB" false ].

(** The text [updateEstimates] stores for a size of [n] megabytes. *)
Definition estimatedSizeText (n : Z) : string :=
  "~" ++ JS.toString n ++ " MB".
End ExportOptions.

(** ** The AIProcessingInsights component

    Its source follows the export panel's in components/ExportOptions.tsx. *)

Module AIProcessingInsights.
Import JS.
Local Open Scope string_scope.
Local Open Scope Q_scope.
Local Open Scope rand_scope.

Inductive InsightType :=
| scene_detection | audio_analysis | color_grading | motion_tracking
| quality_enhancement.

Inductive InsightStatus := analyzing | completed | optimizing | error.

Inductive Trend := up | down | stable.

Inductive MetricValue :=
| Text (s : string)
| Number (n : Q).

Record Metric := mkMetric {
  label : string;
  value : MetricValue;
  trend : option Trend
}.

Module Template.
Record t := mk {
  type : InsightType;
  title : string;
  description : string;
  confidence : Q;
  metrics : list Metric;
  suggestions : list string
}.
End Template.

Record AIInsight := mkInsight {
  id : string;
  type : InsightType;
  title : string;
  description : string;
  progress : Q;
  status : InsightStatus;
  confidence : Q;
  metrics : list Metric;
  suggestions : list string
}.

Definition phases : list string :=
  [ "Initializing AI Analysis..."; "Analyzing video content...";
    "Detecting scenes and objects..."; "Processing audio tracks...";
    "Analyzing color composition..."; "Tracking motion patterns...";
    "Generating enhancement suggestions..."; "Finalizing AI insights..." ].

Definition insightTemplates : list Template.t :=
  [ Template.mk scene_detection "Scene Detection"
      "Analyzing video structure and identifying distinct scenes" 0.92
      [ mkMetric "Scenes Found" (Number 8) None;
        mkMetric "Avg Scene Length" (Text "19.2s") None;
        mkMetric "Transition Quality" (Text "High") (Some up) ]
      [ "Auto-cut detected at 0:23 for smoother flow";
        "Add fade transition between scenes 3-4";
        "Consider shortening scene 6 by 3 seconds" ];
    Template.mk audio_analysis "Audio Analysis"
      "Processing audio tracks and identifying enhancement opportunities"
      0.87
      [ mkMetric "Audio Quality" (Text "7.8/10") None;
        mkMetric "Background Noise" (Text "Low") None;
        mkMetric "Volume Consistency" (Text "85%") (Some stable) ]
      [ "Normalize audio levels across all segments";
        "Apply noise reduction at 1:23-1:45";
        "Enhance voice clarity in segment 2" ];
    Template.mk color_grading "Color Analysis"
      "Evaluating color composition and suggesting improvements" 0.79
      [ mkMetric "Color Balance" (Text "Good") None;
        mkMetric "Saturation" (Text "72%") None;
        mkMetric "Contrast Ratio" (Text "4.2:1") (Some up) ]
      [ "Increase warmth in outdoor scenes";
        "Adjust shadows in segment 4";
        "Apply color correction to match brand palette" ];
    Template.mk motion_tracking "Motion Analysis"
      "Tracking camera movement and subject motion patterns" 0.94
      [ mkMetric "Camera Stability" (Text "9.1/10") None;
        mkMetric "Motion Blur" (Text "Minimal") None;
        mkMetric "Tracking Accuracy" (Text "96%") (Some up) ]
      [ "Apply stabilization to handheld segments";
        "Add motion blur for dynamic transitions";
        "Track subject movement for auto-focus" ];
    Template.mk quality_enhancement "Quality Enhancement"
      "Identifying opportunities for overall video improvement" 0.88
      [ mkMetric "Overall Quality" (Text "8.4/10") None;
        mkMetric "Sharpness" (Text "High") None;
        mkMetric "Compression" (Text "Optimal") (Some stable) ]
      [ "Upscale resolution to 4K for better quality";
        "Apply AI denoising to low-light segments";
        "Enhance detail preservation in fast motion" ] ].

(** *** The phase label

    The callback of the 2 second interval, on its counter and the
    [currentPhase] state. *)
Definition phaseTick (phaseIndex : nat) (currentPhase : string)
    : App.Timer * nat * string :=
  if (phaseIndex <? List.length phases)%nat then
    (App.Running, S phaseIndex, nth phaseIndex phases "undefined")
  else
    (App.Cleared, phaseIndex, currentPhase).

(** The counter and label after [n] runs of the callback, the interval
    being cleared by the first run that finds the counter at the end. *)
Fixpoint phaseTicks (n : nat) (phaseIndex : nat) (currentPhase : string)
    : App.Timer * nat * string :=
  match n with
  | O => (App.Running, phaseIndex, currentPhase)
  | S k =>
      match phaseTick phaseIndex currentPhase with
      | (App.Running, i, c) => phaseTicks k i c
      | stopped => stopped
      end
  end.

(** *** The insights *)

(** The timeout of template [index]: a new insight joins the list. *)
Definition newInsight (index : nat) (template : Template.t) : AIInsight :=
  mkInsight ("insight-" ++ toString (Z.of_nat index))
    (Template.type template) (Template.title template)
    (Template.description template) 0 analyzing
    (Template.confidence template) (Template.metrics template)
    (Template.suggestions template).

Definition spawn (index : nat) (template : Template.t)
    (prev : list AIInsight) : list AIInsight :=
  prev ++ [newInsight index template].

Definition mapInsight (newId : string) (f : AIInsight -> AIInsight)
    (prev : list AIInsight) : list AIInsight :=
  map (fun insight => if String.eqb (id insight) newId then f insight
                      else insight) prev.

(** One run of an insight's 800 ms callback; [progress] is the variable the
    callback closes over. *)
Definition progressTick (newId : string) (progress : Q)
    (prev : list AIInsight) : Rand (App.Timer * Q * list AIInsight) :=
  r <- Math_random ;;
  let progress := progress + (r * 15 + 5) in
  if geb progress 100 then
    ret (App.Cleared, 100,
         mapInsight newId
           (fun i => mkInsight (id i) (type i) (title i) (description i)
                       100 completed (confidence i) (metrics i)
                       (suggestions i)) prev)
  else
    ret (App.Running, progress,
         mapInsight newId
           (fun i => mkInsight (id i) (type i) (title i) (description i)
                       (Math_min progress 100) (status i) (confidence i)
                       (metrics i) (suggestions i)) prev).



(** What is drawn under a completed insight: its metrics and its first two
    suggestions. *)
Definition shownSuggestions (insight : AIInsight) : list string :=
  match status insight with
  | completed => firstn 2 (suggestions insight)
  | _ => []
  end.
End AIProcessingInsights.

(** * Properties *)

(** ** Comparisons and rounding *)

Section Numbers.
Local Open Scope Q_scope.

Lemma ltb_lt (a b : Q) : JS.ltb a b = true <-> a < b.
Proof.
  unfold JS.ltb. rewrite negb_true_iff, <- not_true_iff_false, Qle_bool_iff.
  split; [apply Qnot_le_lt | apply Qlt_not_le].
Qed.

Lemma ltb_ge (a b : Q) : JS.ltb a b = false <-> b <= a.
Proof.
  unfold JS.ltb. rewrite negb_false_iff. apply Qle_bool_iff.
Qed.

Lemma geb_ge (a b : Q) : JS.geb a b = true <-> b <= a.
Proof. apply Qle_bool_iff. Qed.

Lemma geb_lt (a b : Q) : JS.geb a b = false <-> a < b.
Proof.
  unfold JS.geb. rewrite <- not_true_iff_false, Qle_bool_iff.
  split; [apply Qnot_le_lt | apply Qlt_not_le].
Qed.

Lemma Math_min_spec (a b : Q) :
  (a <= b /\ JS.Math_min a b = a) \/ (b < a /\ JS.Math_min a b = b).
Proof.
  unfold JS.Math_min. destruct (Qle_bool a b) eqn:E.
  - left. split; [now apply Qle_bool_iff | reflexivity].
  - right. split; [| reflexivity].
    apply Qnot_le_lt. intro H. apply Qle_bool_iff in H. congruence.
Qed.

Lemma Math_max_spec (a b : Q) :
  (a <= b /\ JS.Math_max a b = b) \/ (b < a /\ JS.Math_max a b = a).
Proof.
  unfold JS.Math_max. destruct (Qle_bool a b) eqn:E.
  - left. split; [now apply Qle_bool_iff | reflexivity].
  - right. split; [| reflexivity].
    apply Qnot_le_lt. intro H. apply Qle_bool_iff in H. congruence.
Qed.

Lemma Qfloor_unique (x : Q) (z : Z) :
  inject_Z z <= x -> x < inject_Z (z + 1) -> Qfloor x = z.
Proof.
  intros Hlo Hhi.
  pose proof (Qfloor_le x) as Hf. pose proof (Qlt_floor x) as Hc.
  assert (inject_Z (Qfloor x) < inject_Z (z + 1)) as H1
    by (eapply Qle_lt_trans; eassumption).
  assert (inject_Z z < inject_Z (Qfloor x + 1)) as H2
    by (eapply Qle_lt_trans; eassumption).
  rewrite <- Zlt_Qlt in H1, H2. lia.
Qed.

Lemma trunc_nonneg (x : Q) : 0 <= x -> JS.trunc x = Qfloor x.
Proof.
  intro H. unfold JS.trunc.
  apply Qle_bool_iff in H. now rewrite H.
Qed.
End Numbers.

(** ** File validation *)

Section FileValidation.
Import App.
Local Open Scope string_scope.

Lemma includes_In (l : list string) (s : string) :
  includes l s = true <-> In s l.
Proof.
  unfold includes. rewrite existsb_exists. split.
  - intros (x & Hx & E). apply String.eqb_eq in E. now subst.
  - intro H. exists s. split; [assumption | apply String.eqb_refl].
Qed.

(** C9. [validateVideoFile] answers [valid = true] exactly for a file whose
    MIME type is one of the five allowed ones and whose size is at most
    500 * 1024 * 1024 bytes, the bound included.  Every other file gets
    [valid = false] with a non-empty message, and a disallowed type gets the
    type message whatever the size. *)
Theorem validateVideoFile_spec (file : File.t) :
  (Validation.valid (validateVideoFile file) = true <->
     In (File.type file)
        ["video/mp4"; "video/mov"; "video/avi"; "video/mkv"; "video/webm"]
     /\ (File.size file <= 500 * 1024 * 1024)%Z)
  /\ (Validation.valid (validateVideoFile file) = false ->
        exists msg, Validation.error (validateVideoFile file) = Some msg
                    /\ msg <> "")
  /\ (~ In (File.type file)
          ["video/mp4"; "video/mov"; "video/avi"; "video/mkv"; "video/webm"]
      -> validateVideoFile file =
           Validation.mk false
             (Some "Please upload a valid video file (MP4, MOV, AVI, MKV, WebM)")).
Proof.
  pose proof (includes_In allowedTypes (File.type file)) as Hin.
  unfold validateVideoFile, maxSize.
  destruct (includes allowedTypes (File.type file)) eqn:Ety; cbn [negb].
  - destruct (File.size file >? 500 * 1024 * 1024)%Z eqn:Esz; cbn.
    + apply Z.gtb_lt in Esz. split; [split | split].
      * discriminate.
      * intros [_ Hsz]. lia.
      * intros _. eexists. split; [reflexivity | discriminate].
      * intro Hty. exfalso. apply Hty, Hin. reflexivity.
    + assert (File.size file <= 500 * 1024 * 1024)%Z as Hle.
      { destruct (Z.gtb_spec (File.size file) (500 * 1024 * 1024)) as [|Hsz];
          [discriminate | exact Hsz]. }
      split; [split | split].
      * intros _. split; [apply Hin; reflexivity | exact Hle].
      * reflexivity.
      * discriminate.
      * intro Hty. exfalso. apply Hty, Hin. reflexivity.
  - cbn. split; [split | split].
    + discriminate.
    + intros [Hty _]. apply Hin in Hty. discriminate.
    + intros _. eexists. split; [reflexivity | discriminate].
    + reflexivity.
Qed.
End FileValidation.

(** ** Time formatting *)

Section FormatTime.
Local Open Scope Q_scope.

Lemma inject_Z_sub (a b : Z) : inject_Z (a - b) == inject_Z a - inject_Z b.
Proof.
  unfold Z.sub, Qminus. now rewrite inject_Z_plus, inject_Z_opp.
Qed.

Lemma two_digits (n : nat) :
  (n < 60)%nat ->
  JS.padStart 2 "0" (JS.toString (Z.of_nat n)) =
    String (JS.digit (Z.of_nat n / 10))
      (String (JS.digit (Z.of_nat n mod 10)) "").
Proof.
  intro H.
  do 60 (destruct n as [|n]; [reflexivity |]).
  lia.
Qed.

(** Minutes and seconds of a non-negative time split its integer part. *)
Lemma minutes_seconds (seconds : Q) :
  0 <= seconds ->
  let mins := JS.Math_floor (seconds / 60) in
  let secs := JS.Math_floor (JS.rem seconds 60) in
  (0 <= mins)%Z /\ (0 <= secs < 60)%Z
  /\ (60 * mins + secs)%Z = Qfloor seconds.
Proof.
  intros Hs mins secs.
  assert (seconds / 60 == seconds * (1 # 60)) as Hdiv by reflexivity.
  assert (0 <= seconds / 60) as Hq by lra.
  unfold JS.Math_floor in *.
  pose proof (Qfloor_le (seconds / 60)) as Hlo.
  pose proof (Qlt_floor (seconds / 60)) as Hhi.
  fold mins in Hlo, Hhi. rewrite inject_Z_plus in Hhi.
  assert (0 <= mins)%Z as Hm.
  { subst mins. rewrite <- (Qfloor_Z 0). now apply Qfloor_resp_le. }
  assert (JS.rem seconds 60 == seconds - 60 * inject_Z mins) as Hr.
  { unfold JS.rem. rewrite trunc_nonneg by assumption. reflexivity. }
  assert (secs = (Qfloor seconds - 60 * mins)%Z) as Hsecs.
  { subst secs. rewrite Hr. apply Qfloor_unique.
    - rewrite inject_Z_sub, inject_Z_mult.
      pose proof (Qfloor_le seconds). change (inject_Z 60) with 60. lra.
    - rewrite inject_Z_plus, inject_Z_sub, inject_Z_mult.
      pose proof (Qlt_floor seconds) as H. rewrite inject_Z_plus in H.
      change (inject_Z 60) with 60. change (inject_Z 1) with 1 in *. lra. }
  split; [exact Hm |]. split; [| lia].
  rewrite Hsecs.
  assert (inject_Z (60 * mins) <= seconds) as H1.
  { rewrite inject_Z_mult. change (inject_Z 60) with 60. lra. }
  assert (seconds < inject_Z (60 * mins + 60)) as H2.
  { rewrite inject_Z_plus, inject_Z_mult. change (inject_Z 60) with 60.
    change (inject_Z 1) with 1 in *. lra. }
  assert (60 * mins <= Qfloor seconds)%Z.
  { rewrite <- (Qfloor_Z (60 * mins)). now apply Qfloor_resp_le. }
  assert (Qfloor seconds < 60 * mins + 60)%Z.
  { rewrite Zlt_Qlt. eapply Qle_lt_trans; [apply Qfloor_le | exact H2]. }
  lia.
Qed.

(** C10. The [formatTime] of App.tsx and the one of VideoTimeline.tsx return
    the same string on every non-negative number of seconds: the minutes,
    a colon, and the seconds as exactly two decimal digits, the seconds
    being below 60 (and minutes and seconds adding up to the whole seconds
    of the argument). *)
Theorem formatTime_agree (seconds : Q) :
  0 <= seconds ->
  App.formatTime seconds = VideoTimeline.formatTime seconds
  /\ exists mins secs : Z,
       (0 <= mins)%Z /\ (0 <= secs < 60)%Z
       /\ (60 * mins + secs)%Z = Qfloor seconds
       /\ App.formatTime seconds =
            (JS.toString mins ++ ":"
               ++ String (JS.digit (secs / 10))
                    (String (JS.digit (secs mod 10)) ""))%string.
Proof.
  intro Hs. split; [reflexivity |].
  destruct (minutes_seconds seconds Hs) as (Hm & Hsec & Hsum).
  exists (JS.Math_floor (seconds / 60)), (JS.Math_floor (JS.rem seconds 60)).
  repeat split; try assumption; try apply Hsec.
  unfold App.formatTime.
  set (secs := JS.Math_floor (JS.rem seconds 60)) in *.
  rewrite <- (Z2Nat.id secs) by lia.
  rewrite two_digits by lia. reflexivity.
Qed.

Lemma formatTime_agree_witness :
  App.formatTime 154 = VideoTimeline.formatTime 154
  /\ exists mins secs : Z,
       (0 <= mins)%Z /\ (0 <= secs < 60)%Z
       /\ (60 * mins + secs)%Z = Qfloor 154
       /\ App.formatTime 154 =
            (JS.toString mins ++ ":"
               ++ String (JS.digit (secs / 10))
                    (String (JS.digit (secs mod 10)) ""))%string.
Proof.
  apply (formatTime_agree 154). unfold Qle. simpl. lia.
Defined.
End FormatTime.

(** ** Suggestions *)

Section Suggestions.
Import App.
Local Open Scope Q_scope.

Variable rnd : nat -> Q.
Hypothesis rnd_unit : JS.unit_draws rnd.

Lemma audioSuggestion_confident (k : nat) :
  confident (fst (audioSuggestion rnd k)).
Proof.
  unfold audioSuggestion, confident, JS.bind, JS.Math_random, JS.ret.
  cbn [fst Suggestion.confidence].
  pose proof (rnd_unit (S (S (S k)))). lra.
Qed.

Lemma drawSuggestions_confident (k : nat) :
  Forall confident (fst (drawSuggestions rnd k)).
Proof.
  unfold drawSuggestions, JS.bind, JS.Math_random, JS.ret.
  pose proof (rnd_unit (S k)) as H2.
  destruct (JS.gtb (rnd (S (S k))) 0.3).
  - unfold JS.bind.
    pose proof (audioSuggestion_confident (S (S (S k)))) as Ha.
    destruct (audioSuggestion rnd (S (S (S k)))) as [a k'].
    pose proof (rnd_unit (S k')) as H9.
    cbn [fst app] in *.
    repeat apply Forall_cons; try apply Forall_nil; try exact Ha;
      unfold confident; cbn [Suggestion.confidence]; lra.
  - pose proof (rnd_unit (S (S (S (S k))))) as H9.
    cbn [fst app].
    repeat apply Forall_cons; try apply Forall_nil;
      unfold confident; cbn [Suggestion.confidence]; lra.
Qed.

(** A job that is not in the captured list gets no suggestions and uses no
    draw; that is the case of a job created by the very handler call that
    captured the list, unless its id was already taken. *)
Lemma generateAISuggestions_stale (projects : list VideoProject)
    (projectId : string) (prev : list VideoProject) (k : nat) :
  findProject projectId projects = None ->
  generateAISuggestions projects projectId prev rnd k = ((None, prev), k).
Proof.
  intro H. unfold generateAISuggestions. now rewrite H.
Qed.

(** C7. Whatever [Math.random] returns within its range, every suggestion
    that [generateAISuggestions] produces has a confidence in [0, 1], and
    so has every suggestion it stores on the job. *)
Theorem suggestions_confidence_in_unit_interval
    (projects : list VideoProject) (projectId : string)
    (prev : list VideoProject) (k : nat) :
  let out := fst (generateAISuggestions projects projectId prev rnd k) in
  (forall l, fst out = Some l -> Forall confident l)
  /\ (forall l, fst out = Some l ->
        forall p, In p (snd out) -> id p = projectId ->
          aiSuggestions p = Some l).
Proof.
  unfold generateAISuggestions.
  destruct (findProject projectId projects) as [found|].
  - unfold JS.bind, JS.ret.
    pose proof (drawSuggestions_confident k) as Hd.
    destruct (drawSuggestions rnd k) as [l k']. cbn in *. split.
    + intros l' E. injection E as <-. exact Hd.
    + intros l' E p Hp Hid. injection E as <-.
      unfold setSuggestions, mapProject in Hp.
      apply in_map_iff in Hp. destruct Hp as (q & Hq & _).
      destruct (String.eqb_spec (id q) projectId) as [_|Hne].
      * now subst p.
      * subst p. contradiction.
  - cbn. split; intros l E; discriminate.
Qed.
End Suggestions.

Lemma suggestions_confidence_witness :
  JS.unit_draws (fun _ => (1 # 2)%Q)
  /\ let out := fst (App.generateAISuggestions App.initialProjects "1"%string
                       App.initialProjects (fun _ => (1 # 2)%Q) 0%nat) in
     (forall l, fst out = Some l -> Forall App.confident l)
     /\ (forall l, fst out = Some l ->
           forall p, In p (snd out) -> App.id p = "1"%string ->
             App.aiSuggestions p = Some l).
Proof.
  assert (JS.unit_draws (fun _ => (1 # 2)%Q)) as H.
  { intro k. split; [unfold Qle; simpl; lia | reflexivity]. }
  split; [exact H |].
  apply (suggestions_confidence_in_unit_interval (fun _ => (1 # 2)%Q) H).
Defined.

(** ** The life of a job *)

Section JobLifecycle.
Import App.
Local Open Scope Q_scope.

Variable rnd : nat -> Q.
Variable projects : list VideoProject.
Variable projectId : string.

Lemma mapProject_head (f : VideoProject -> VideoProject)
    (p : VideoProject) (rest : list VideoProject) :
  id p = projectId ->
  mapProject projectId f (p :: rest) = f p :: mapProject projectId f rest.
Proof.
  intro E. unfold mapProject. cbn [map].
  rewrite E, String.eqb_refl. reflexivity.
Qed.

Lemma jobOf_head (j : Job) (p : VideoProject) (rest : list VideoProject) :
  state j = p :: rest -> id p = projectId -> jobOf projectId j = Some p.
Proof.
  intros Est E. unfold jobOf, findProject. rewrite Est. cbn [find].
  rewrite E, String.eqb_refl. reflexivity.
Qed.

(** Storing suggestions touches neither the status nor the progress. *)
Lemma generateAISuggestions_head (p : VideoProject)
    (rest : list VideoProject) (k : nat) :
  id p = projectId ->
  exists q rest',
    snd (fst (generateAISuggestions projects projectId (p :: rest) rnd k))
      = q :: rest'
    /\ id q = projectId /\ status q = status p /\ progress q = progress p.
Proof.
  intro E. unfold generateAISuggestions.
  destruct (findProject projectId projects).
  - unfold JS.bind, JS.ret. destruct (drawSuggestions rnd k) as [l k'].
    cbn [fst snd]. unfold setSuggestions. rewrite mapProject_head by exact E.
    eexists _, _. split; [reflexivity |]. cbn. auto.
  - cbn. exists p, rest. auto.
Qed.

Lemma finished_false (s : Sim.t) :
  finished s = false ->
  Sim.progress s < 100
  /\ (Sim.currentStepIndex s < List.length processingSteps)%nat.
Proof.
  unfold finished. intro H. apply orb_false_iff in H. destruct H as [H1 H2].
  apply geb_lt in H1. apply Nat.leb_gt in H2. auto.
Qed.

Lemma deliver_coherent (j : Job) (e : Event) :
  coherent projectId j ->
  coherent projectId (deliver rnd projects projectId j e).
Proof.
  intros (p & rest & Est & Eid & Hph). unfold deliver.
  destruct (phase j) as [|s|] eqn:Eph.
  - (* the upload is in flight *)
    destruct Hph as [Hst Hpr]. destruct e as [percent| | |].
    + exists (mkProject (id p) (name p) (status p) (JS.Math_min percent 15)
                (duration p) (size p) (aiSuggestions p)), 
             (mapProject projectId
                (fun p => mkProject (id p) (name p) (status p)
                            (JS.Math_min percent 15) (duration p) (size p)
                            (aiSuggestions p)) rest).
      unfold onProgress. rewrite Est, mapProject_head by exact Eid.
      cbn. repeat split; try assumption.
      destruct (Math_min_spec percent 15) as [[? ->]|[? ->]]; lra.
    + eexists _, _. unfold uploadResolved.
      rewrite Est, mapProject_head by exact Eid.
      cbn. repeat split; try assumption; auto; try lra. cbn; lia.
    + eexists _, _. unfold uploadRejected.
      rewrite Est, mapProject_head by exact Eid.
      cbn. split; [reflexivity |]. split; [assumption |]. right. auto.
    + exists p, rest. rewrite Eph. auto.
  - (* the timer is running *)
    destruct Hph as (Hst & Hpr & Hsp & Hidx).
    destruct e; try (exists p, rest; rewrite Eph; now auto).
    unfold tick, advance, JS.bind.
    destruct (nth_error processingSteps (Sim.currentStepIndex s))
      as [currentStep|] eqn:Enth.
    2: { apply nth_error_None in Enth. lia. }
    set (stepped :=
           if JS.ltb (Sim.progress s) (Step.progress currentStep)
           then _ else _).
    assert (exists s' k', stepped rnd (cursor j) = (Some s', k'))
      as (s' & k' & Estep).
    { subst stepped.
      destruct (JS.ltb (Sim.progress s) (Step.progress currentStep));
        unfold JS.bind, JS.Math_random, JS.ret;
        eexists _, _; reflexivity. }
    rewrite Estep. destruct (finished s') eqn:Efin.
    + rewrite Est, mapProject_head by exact Eid.
      destruct (generateAISuggestions_head
                  (mkProject (id p) (name p) completed 100
                     (Some "1:45"%string) (size p) (aiSuggestions p))
                  (mapProject projectId
                     (fun p => mkProject (id p) (name p) completed 100
                                 (Some "1:45"%string) (size p)
                                 (aiSuggestions p)) rest)
                  k' Eid)
        as (q & rest' & Eg & Eq & Hs & Hp).
      destruct (generateAISuggestions _ _ _ rnd k') as [g k''].
      cbn [JS.ret fst snd] in *.
      exists q, rest'. cbn. split; [exact Eg |]. split; [exact Eq |].
      left. rewrite Hs, Hp. cbn. split; reflexivity.
    + apply finished_false in Efin. destruct Efin as [Hlt Hix].
      rewrite Est, mapProject_head by exact Eid.
      cbn [JS.ret]. eexists _, _. cbn. split; [reflexivity |].
      split; [exact Eid |]. repeat split; try assumption.
      destruct (JS.ltb (Sim.progress s') 20); auto.
  - (* stopped *)
    exists p, rest. rewrite Eph. destruct e; auto.
Qed.

Lemma observe_coherent (events : list Event) (j : Job) :
  coherent projectId j ->
  Forall (coherent projectId) (observe rnd projects projectId j events).
Proof.
  revert j. induction events as [|e rest IH]; intros j Hj; cbn [observe].
  - constructor; [exact Hj | constructor].
  - constructor; [exact Hj |]. apply IH, deliver_coherent, Hj.
Qed.

Lemma run_coherent (events : list Event) (j : Job) :
  coherent projectId j ->
  coherent projectId (run rnd projects projectId j events).
Proof.
  revert j. unfold run.
  induction events as [|e rest IH]; intros j Hj; cbn [fold_left].
  - exact Hj.
  - apply IH, deliver_coherent, Hj.
Qed.

Lemma coherent_completed_iff (j : Job) :
  coherent projectId j ->
  exists p, jobOf projectId j = Some p
            /\ (status p = completed <-> progress p == 100).
Proof.
  intros (p & rest & Est & Eid & Hph). exists p.
  split; [eapply jobOf_head; eassumption |].
  destruct (phase j).
  - destruct Hph as [Hst Hpr]. split.
    + rewrite Hst. discriminate.
    + intro H. rewrite H in Hpr. lra.
  - destruct Hph as (Hst & Hpr & _). split.
    + intro H. rewrite H in Hst. destruct Hst; discriminate.
    + intro H. rewrite H in Hpr. lra.
  - destruct Hph as [[Hst Hpr]|[Hst Hpr]].
    + tauto.
    + split.
      * rewrite Hst. discriminate.
      * intro H. rewrite H in Hpr. lra.
Qed.

(** Progress reports leave the job in the upload phase. *)
Lemma reports_transporting (percents : list Q) (j : Job) :
  phase j = Transporting ->
  Forall (fun j' => phase j' = Transporting)
    (observe rnd projects projectId j (map TransportProgress percents)).
Proof.
  revert j. induction percents as [|x rest IH]; intros j Hj; cbn.
  - constructor; [exact Hj | constructor].
  - constructor; [exact Hj |]. apply IH. unfold deliver. now rewrite Hj.
Qed.

Lemma run_reports_transporting (percents : list Q) (j : Job) :
  phase j = Transporting ->
  phase (run rnd projects projectId j (map TransportProgress percents))
    = Transporting.
Proof.
  revert j. unfold run. induction percents as [|x rest IH]; intros j Hj; cbn.
  - exact Hj.
  - apply IH. unfold deliver. now rewrite Hj.
Qed.

Lemma run_app (j : Job) (l1 l2 : list Event) :
  run rnd projects projectId j (l1 ++ l2)
    = run rnd projects projectId (run rnd projects projectId j l1) l2.
Proof. unfold run. apply fold_left_app. Qed.
End JobLifecycle.

Section SubmittedJob.
Import App.
Local Open Scope Q_scope.

Variable rnd : nat -> Q.
Variable projects : list VideoProject.
Variable now : Z.
Variable file : File.t.

Local Abbreviation newProject := (newProjectFor now file).
Local Abbreviation projectId := (id (newProjectFor now file)).
Local Abbreviation job := (submitted (newProjectFor now file) projects).

Lemma submitted_coherent : coherent projectId job.
Proof.
  exists newProject, projects. cbn. repeat split; try reflexivity.
  unfold Qle. simpl. lia.
Qed.

(** C4. While the upload is in flight every progress report [p] is stored
    as [Math.min(p, 15)], so the job stays [uploading] at 15 at most, and
    when the upload resolves the job is [processing] at exactly 15. *)
Theorem transport_progress_clamped (percents : list Q) :
  let reports := map TransportProgress percents in
  Forall (fun j => phase j = Transporting
                   /\ exists p, jobOf projectId j = Some p
                                /\ status p = uploading /\ progress p <= 15)
    (observe rnd projects projectId job reports)
  /\ (forall percent,
        exists p,
          jobOf projectId
            (run rnd projects projectId job
               (reports ++ [TransportProgress percent])) = Some p
          /\ progress p = JS.Math_min percent 15)
  /\ (exists p,
        jobOf projectId
          (run rnd projects projectId job (reports ++ [TransportComplete]))
          = Some p
        /\ status p = processing /\ progress p = 15).
Proof.
  intro reports. split; [| split].
  - pose proof (observe_coherent rnd projects projectId reports job
                  submitted_coherent) as Hc.
    pose proof (reports_transporting rnd projects projectId percents job
                  eq_refl) as Ht.
    fold reports in Ht.
    induction Hc as [|j l Hj _ IH]; [constructor |].
    inversion Ht as [|? ? Hph Ht']; subst.
    constructor; [| now apply IH].
    split; [exact Hph |].
    destruct Hj as (p & rest & Est & Eid & Hp). rewrite Hph in Hp.
    exists p. split; [eapply jobOf_head; eassumption | exact Hp].
  - intro percent. rewrite run_app.
    pose proof (run_coherent rnd projects projectId reports job
                  submitted_coherent) as (p & rest & Est & Eid & _).
    pose proof (run_reports_transporting rnd projects projectId percents job
                  eq_refl) as Hph.
    fold reports in Hph.
    set (j := run rnd projects projectId job reports) in *.
    unfold run. cbn [fold_left]. unfold deliver. rewrite Hph.
    unfold jobOf, findProject, onProgress. cbn [state].
    rewrite Est, mapProject_head by exact Eid. cbn [find id].
    rewrite Eid, String.eqb_refl. eexists. split; reflexivity.
  - rewrite run_app.
    pose proof (run_coherent rnd projects projectId reports job
                  submitted_coherent) as (p & rest & Est & Eid & _).
    pose proof (run_reports_transporting rnd projects projectId percents job
                  eq_refl) as Hph.
    fold reports in Hph.
    set (j := run rnd projects projectId job reports) in *.
    unfold run. cbn [fold_left]. unfold deliver. rewrite Hph.
    unfold jobOf, findProject, uploadResolved. cbn [state].
    rewrite Est, mapProject_head by exact Eid. cbn [find id].
    rewrite Eid, String.eqb_refl. eexists. repeat split; reflexivity.
Qed.
End SubmittedJob.

(** ** Progress over time *)

Section Progress.
Import App.
Local Open Scope Q_scope.

Variable rnd : nat -> Q.
Hypothesis rnd_unit : JS.unit_draws rnd.

(** The timer's own counter never goes back and stays within [0, 100]. *)
Lemma advance_monotone (s s' : Sim.t) (k k' : nat) :
  advance s rnd k = (Some s', k') ->
  Sim.progress s <= Sim.progress s'.
Proof.
  unfold advance.
  destruct (nth_error processingSteps (Sim.currentStepIndex s))
    as [currentStep|]; [| discriminate].
  destruct (JS.ltb (Sim.progress s) (Step.progress currentStep)) eqn:E.
  - unfold JS.bind, JS.Math_random, JS.ret. intro H. injection H as <- _.
    cbn [Sim.progress]. apply ltb_lt in E.
    pose proof (rnd_unit k) as [Hr _].
    destruct (Math_min_spec (Sim.progress s + (rnd k * 8 + 2))
                (Step.progress currentStep)) as [[_ ->]|[_ ->]]; lra.
  - unfold JS.ret. intro H. injection H as <- _. cbn. lra.
Qed.

Lemma advance_bounded (s s' : Sim.t) (k k' : nat) :
  advance s rnd k = (Some s', k') ->
  0 <= Sim.progress s <= 100 ->
  0 <= Sim.progress s' <= 100.
Proof.
  intros H Hs. pose proof (advance_monotone s s' k k' H) as Hm.
  split; [lra |]. revert H. unfold advance.
  destruct (nth_error processingSteps (Sim.currentStepIndex s))
    as [currentStep|] eqn:Enth; [| discriminate].
  assert (Step.progress currentStep <= 100) as Ht.
  { apply nth_error_In in Enth. cbn in Enth.
    repeat (destruct Enth as [<-|Enth]; [cbn; lra |]). contradiction. }
  destruct (JS.ltb (Sim.progress s) (Step.progress currentStep)).
  - unfold JS.bind, JS.Math_random, JS.ret. intro H. injection H as <- _.
    cbn [Sim.progress].
    destruct (Math_min_spec (Sim.progress s + (rnd k * 8 + 2))
                (Step.progress currentStep)) as [[? ->]|[? ->]]; lra.
  - unfold JS.ret. intro H. injection H as <- _. cbn. lra.
Qed.

(** The job itself, however, is [processing] at 15 when the timer starts
    and is written back as [uploading] below 15 by the first tick. *)
Lemma first_tick_regresses (projects : list VideoProject)
    (now : Z) (file : File.t) :
  let newProject := newProjectFor now file in
  let j := run rnd projects (id newProject) (submitted newProject projects)
             [TransportComplete; TimerTick] in
  exists p, jobOf (id newProject) j = Some p
            /\ status p = uploading /\ progress p <= 10.
Proof.
  intros newProject j. subst j. unfold run. cbn [fold_left].
  unfold deliver at 2. cbn [phase submitted state cursor].
  unfold deliver. cbn [phase state cursor].
  unfold tick, advance, simulateProcessing, JS.bind.
  cbn [nth_error processingSteps Sim.currentStepIndex Sim.progress
       Step.progress].
  assert (JS.ltb 0 15 = true) as -> by reflexivity.
  unfold JS.Math_random, JS.ret.
  pose proof (rnd_unit 0%nat) as [Hlo Hhi].
  set (q := JS.Math_min (0 + (rnd 0%nat * 8 + 2)) 15).
  assert (q <= 10) as Hq.
  { subst q. destruct (Math_min_spec (0 + (rnd 0%nat * 8 + 2)) 15)
      as [[? ->]|[? ->]]; lra. }
  assert (finished (Sim.mk q 0) = false) as ->.
  { unfold finished. cbn. rewrite orb_false_r. apply geb_lt. lra. }
  cbn [Sim.progress].
  assert (JS.ltb q 20 = true) as -> by (apply ltb_lt; lra).
  unfold jobOf, findProject, uploadResolved. cbn [state].
  rewrite !(mapProject_head (id newProject)) by reflexivity.
  cbn [find id]. rewrite String.eqb_refl.
  eexists. split; [reflexivity |]. cbn. split; [reflexivity | exact Hq].
Qed.
End Progress.

(** With the smallest draws the job is written back as [uploading] ten
    times after the upload has ended, the last two above 15. *)
Lemma uploading_label_returns :
  let file := App.File.mk "clip.mp4" "video/mp4" 1048576 in
  let newProject := App.newProjectFor 1700000000000 file in
  map (App.snapshot (App.id newProject))
    (App.observe (fun _ => 0%Q) App.initialProjects (App.id newProject)
       (App.submitted newProject App.initialProjects)
       (App.TransportComplete :: repeat App.TimerTick 12))
  = [ Some (App.uploading, 0%Q); Some (App.processing, 15%Q);
      Some (App.uploading, 2%Q); Some (App.uploading, 4%Q);
      Some (App.uploading, 6%Q); Some (App.uploading, 8%Q);
      Some (App.uploading, 10%Q); Some (App.uploading, 12%Q);
      Some (App.uploading, 14%Q); Some (App.uploading, 15%Q);
      Some (App.uploading, 15%Q); Some (App.uploading, 17%Q);
      Some (App.uploading, 19%Q); Some (App.processing, 21%Q) ].
Proof. vm_compute. reflexivity. Qed.

(** C1. Progress of a job is meant never to decrease, but the hand-off from
    the upload to the timer loses ground: after a report of 100 and the end of
    the upload the job shows 15 and [processing]; the first tick, drawing 1/2,
    writes 6 and [uploading]. *)
Theorem progress_regresses_after_upload :
  let file := App.File.mk "clip.mp4" "video/mp4" 1048576 in
  let newProject := App.newProjectFor 1700000000000 file in
  map (App.snapshot (App.id newProject))
    (App.observe (fun _ => (1 # 2)%Q) App.initialProjects (App.id newProject)
       (App.submitted newProject App.initialProjects)
       [App.TransportProgress 100; App.TransportComplete; App.TimerTick])
  = [ Some (App.uploading, 0%Q); Some (App.uploading, 15%Q);
      Some (App.processing, 15%Q); Some (App.uploading, 6%Q) ].
Proof. vm_compute. reflexivity. Qed.

(** ** The timer runs out *)

Section Termination.
Import App.
Local Open Scope Q_scope.

Variable rnd : nat -> Q.
Hypothesis rnd_unit : JS.unit_draws rnd.

Lemma Qfloor_ge (z : Z) (x : Q) : inject_Z z <= x -> (z <= Qfloor x)%Z.
Proof.
  intro H. rewrite <- (Qfloor_Z z). now apply Qfloor_resp_le.
Qed.

Lemma Qfloor_lt (z : Z) (x : Q) : x < inject_Z z -> (Qfloor x < z)%Z.
Proof.
  intro H. rewrite Zlt_Qlt. eapply Qle_lt_trans; [apply Qfloor_le | exact H].
Qed.

(** Case split on the step index, with the targets evaluated. *)
Ltac by_step i tac :=
  do 7 (destruct i as [|i];
        [unfold baseOf, targetOf in *;
         cbn [nth_error processingSteps Step.progress] in *; tac |]).

Lemma potential_bounded (s : Sim.t) : inStep s -> (potential s <= 62)%Z.
Proof.
  intros (Hi & Hlo & Hhi). unfold potential.
  destruct s as [p i]. cbn [Sim.progress Sim.currentStepIndex] in *.
  cbn [List.length processingSteps] in Hi.
  destruct (JS.geb p (targetOf i)) eqn:E; [lia |].
  apply geb_lt in E.
  assert (Qfloor ((p - baseOf i) / 2) < 8)%Z; [| lia].
  apply Qfloor_lt. change (inject_Z 8) with 8.
  assert ((p - baseOf i) / 2 == (p - baseOf i) * (1 # 2)) as -> by reflexivity.
  by_step i lra. lia.
Qed.

(** One run of the first half of the callback either ends the job or
    raises the count. *)
Lemma advance_potential (s : Sim.t) (k : nat) :
  inStep s -> Sim.progress s < 100 ->
  exists s' k',
    advance s rnd k = (Some s', k')
    /\ (finished s' = true
        \/ (inStep s' /\ Sim.progress s' < 100
            /\ (potential s + 1 <= potential s')%Z)).
Proof.
  intros (Hi & Hlo & Hhi) Hp.
  destruct s as [p i]. cbn [Sim.progress Sim.currentStepIndex] in *.
  pose proof (rnd_unit k) as [Hr0 Hr1].
  unfold advance. cbn [Sim.progress Sim.currentStepIndex].
  cbn [List.length processingSteps] in Hi.
  destruct (nth_error processingSteps i) as [currentStep|] eqn:Enth.
  2: { apply nth_error_None in Enth. cbn in Enth. lia. }
  assert (targetOf i = Step.progress currentStep) as Et
    by (unfold targetOf; now rewrite Enth).
  rewrite <- Et in *. clear Enth Et currentStep.
  destruct (JS.ltb p (targetOf i)) eqn:Elt.
  - (* progress is made *)
    apply ltb_lt in Elt.
    unfold JS.bind, JS.Math_random, JS.ret.
    eexists _, _. split; [reflexivity |].
    set (p' := JS.Math_min (p + (rnd k * 8 + 2)) (targetOf i)).
    assert (p + 2 <= p' \/ p' = targetOf i) as Hp'.
    { subst p'. destruct (Math_min_spec (p + (rnd k * 8 + 2)) (targetOf i))
        as [[? ->]|[? ->]]; [left; lra | right; reflexivity]. }
    assert (p' <= targetOf i) as Hle.
    { subst p'. destruct (Math_min_spec (p + (rnd k * 8 + 2)) (targetOf i))
        as [[? ->]|[? ->]]; lra. }
    destruct (finished (Sim.mk p' i)) eqn:Efin; [now left | right].
    apply finished_false in Efin. destruct Efin as [Hlt100 _].
    cbn [Sim.progress Sim.currentStepIndex] in *.
    split; [| split; [exact Hlt100 |]].
    + unfold inStep. cbn. repeat split; try assumption; try lia.
      destruct Hp' as [Hp'|Hp']; [lra | rewrite Hp'; lra].
    + unfold potential. cbn [Sim.progress Sim.currentStepIndex].
      assert (JS.geb p (targetOf i) = false) as -> by (apply geb_lt; lra).
      assert (Qfloor ((p - baseOf i) / 2) < 8)%Z as Hf8.
      { apply Qfloor_lt. change (inject_Z 8) with 8.
        assert ((p - baseOf i) / 2 == (p - baseOf i) * (1 # 2)) as ->
          by reflexivity.
        clear - Hlo Elt Hi. by_step i lra. lia. }
      destruct (JS.geb p' (targetOf i)) eqn:Ege; [lia |].
      apply geb_lt in Ege.
      destruct Hp' as [Hp'|Hp']; [| rewrite Hp' in Ege; lra].
      assert (Qfloor ((p - baseOf i) / 2) + 1
              <= Qfloor ((p' - baseOf i) / 2))%Z; [| lia].
      apply Qfloor_ge. rewrite inject_Z_plus.
      pose proof (Qfloor_le ((p - baseOf i) / 2)) as Hf.
      assert ((p - baseOf i) / 2 == (p - baseOf i) * (1 # 2)) as E1
        by reflexivity.
      assert ((p' - baseOf i) / 2 == (p' - baseOf i) * (1 # 2)) as E2
        by reflexivity.
      change (inject_Z 1) with 1. lra.
  - (* the step is over *)
    apply ltb_ge in Elt. unfold JS.ret.
    eexists _, _. split; [reflexivity |].
    destruct (finished (Sim.mk p (S i))) eqn:Efin; [now left | right].
    apply finished_false in Efin. destruct Efin as [_ Hi'].
    cbn [Sim.progress Sim.currentStepIndex List.length processingSteps] in *.
    assert (p == targetOf i) as Ep by lra.
    assert (targetOf i < targetOf (S i)) as Hnext.
    { clear - Hi'. by_step i ltac:(try reflexivity; lia). lia. }
    split; [| split; [exact Hp |]].
    + unfold inStep. cbn [Sim.progress Sim.currentStepIndex baseOf].
      cbn [List.length processingSteps]. repeat split; try lia; lra.
    + unfold potential. cbn [Sim.progress Sim.currentStepIndex baseOf].
      assert (JS.geb p (targetOf i) = true) as -> by (apply geb_ge; lra).
      assert (JS.geb p (targetOf (S i)) = false) as ->
        by (apply geb_lt; lra).
      assert (Qfloor ((p - targetOf i) / 2) = 0%Z) as ->.
      { apply Qfloor_unique.
        - assert ((p - targetOf i) / 2 == (p - targetOf i) * (1 # 2)) as ->
            by reflexivity.
          change (inject_Z 0) with 0. lra.
        - assert ((p - targetOf i) / 2 == (p - targetOf i) * (1 # 2)) as ->
            by reflexivity.
          change (inject_Z (0 + 1)) with 1. lra. }
      lia.
Qed.

Variable projects : list VideoProject.
Variable projectId : string.

(** What a tick does to a job whose timer is running. *)
Lemma deliver_tick (j : Job) (s : Sim.t) :
  phase j = Simulating s -> coherent projectId j ->
  exists s' k',
    advance s rnd (cursor j) = (Some s', k')
    /\ (finished s' = true ->
          phase (deliver rnd projects projectId j TimerTick) = Stopped
          /\ exists q,
               jobOf projectId (deliver rnd projects projectId j TimerTick)
                 = Some q
               /\ status q = completed /\ progress q = 100)
    /\ (finished s' = false ->
          phase (deliver rnd projects projectId j TimerTick) = Simulating s').
Proof.
  intros Eph (p & rest & Est & Eid & Hph). rewrite Eph in Hph.
  destruct Hph as (_ & _ & _ & Hidx).
  unfold deliver. rewrite Eph. unfold tick, JS.bind.
  destruct (advance s rnd (cursor j)) as [[s'|] k'] eqn:Eadv.
  2: { exfalso. revert Eadv. unfold advance.
       destruct (nth_error processingSteps (Sim.currentStepIndex s))
         as [currentStep|] eqn:Enth.
       - destruct (JS.ltb (Sim.progress s) (Step.progress currentStep));
           unfold JS.bind, JS.Math_random, JS.ret; discriminate.
       - apply nth_error_None in Enth. lia. }
  exists s', k'. split; [reflexivity |].
  destruct (finished s') eqn:Efin.
  - split; [intros _ | discriminate].
    rewrite Est, (mapProject_head projectId) by exact Eid.
    destruct (generateAISuggestions_head rnd projects projectId
                (mkProject (id p) (name p) completed 100
                   (Some "1:45"%string) (size p) (aiSuggestions p))
                (mapProject projectId
                   (fun p => mkProject (id p) (name p) completed 100
                               (Some "1:45"%string) (size p)
                               (aiSuggestions p)) rest)
                k' Eid)
      as (q & rest' & Eg & Eq & Hs & Hp).
    destruct (generateAISuggestions _ _ _ rnd k') as [g k''].
    cbn [JS.ret fst snd] in *. split; [reflexivity |].
    exists q. unfold jobOf, findProject. cbn [state]. rewrite Eg.
    cbn [find]. rewrite Eq, String.eqb_refl. auto.
  - split; [discriminate | intros _]. reflexivity.
Qed.

Lemma run_stopped (events : list Event) (j : Job) :
  phase j = Stopped -> run rnd projects projectId j events = j.
Proof.
  intro Eph. unfold run. induction events as [|e rest IH]; cbn [fold_left].
  - reflexivity.
  - assert (deliver rnd projects projectId j e = j) as ->; [| exact IH].
    unfold deliver. rewrite Eph. now destruct e.
Qed.

(** Enough ticks stop the timer with the job completed. *)
Lemma ticks_complete (n : nat) (j : Job) (s : Sim.t) :
  phase j = Simulating s -> coherent projectId j ->
  inStep s -> Sim.progress s < 100 ->
  (62 < potential s + Z.of_nat n)%Z ->
  let j' := run rnd projects projectId j (repeat TimerTick n) in
  phase j' = Stopped
  /\ exists q, jobOf projectId j' = Some q
               /\ status q = completed /\ progress q = 100.
Proof.
  revert j s. induction n as [|n IH]; intros j s Eph Hc Hin Hp Hpot.
  - pose proof (potential_bounded s Hin). lia.
  - cbn [repeat]. unfold run. cbn [fold_left].
    change (fold_left (deliver rnd projects projectId) (repeat TimerTick n)
              (deliver rnd projects projectId j TimerTick))
      with (run rnd projects projectId
              (deliver rnd projects projectId j TimerTick)
              (repeat TimerTick n)).
    destruct (deliver_tick j s Eph Hc) as (s' & k' & Eadv & Hfin & Hrun).
    destruct (advance_potential s (cursor j) Hin Hp)
      as (s'' & k'' & Eadv' & Hcase).
    rewrite Eadv in Eadv'. injection Eadv' as <- <-.
    destruct Hcase as [Efin|(Hin' & Hp' & Hpot')].
    + destruct (Hfin Efin) as [Est Hq].
      cbn zeta. rewrite run_stopped by exact Est. auto.
    + assert (finished s' = false) as Efin.
      { unfold finished. apply orb_false_iff. split.
        - apply geb_lt, Hp'.
        - apply Nat.leb_gt, Hin'. }
      apply (IH _ s' (Hrun Efin)); try assumption.
      * apply deliver_coherent, Hc.
      * lia.
Qed.
End Termination.

(** A job whose upload succeeds is completed at progress 100 after at most
    63 ticks, whatever the draws. *)
Lemma simulation_completes (rnd : nat -> Q) (projects : list App.VideoProject)
    (now : Z) (file : App.File.t) (n : nat) :
  JS.unit_draws rnd -> (63 <= n)%nat ->
  let newProject := App.newProjectFor now file in
  let j := App.run rnd projects (App.id newProject)
             (App.submitted newProject projects)
             (App.TransportComplete :: repeat App.TimerTick n) in
  App.phase j = App.Stopped
  /\ exists q, App.jobOf (App.id newProject) j = Some q
               /\ App.status q = App.completed
               /\ App.progress q = 100%Q.
Proof.
  intros Hr Hn newProject. unfold App.run. cbn [fold_left].
  apply (ticks_complete rnd Hr projects (App.id newProject) n _
           App.simulateProcessing).
  - reflexivity.
  - apply deliver_coherent, submitted_coherent.
  - unfold App.inStep. cbn. repeat split; try lia;
      unfold Qle; simpl; lia.
  - reflexivity.
  - unfold App.potential. cbn. lia.
Qed.

(** C2. In every state a submitted job goes through, whatever events
    arrive and whatever the random draws, its status is [completed]
    exactly when its progress is 100, and while its timer runs, that is in
    every step before the last write, its progress is below 100.  The two
    projects the application starts with obey the same rule.  The
    transition is taken: for draws in [0, 1), once the upload has resolved
    and 63 ticks or more have run, the timer is cleared and the job is
    [completed] with the progress 100 that the completing tick writes. *)
Theorem completed_iff_progress_100 (rnd : nat -> Q)
    (projects : list App.VideoProject) (now : Z) (file : App.File.t)
    (events : list App.Event) (n : nat) :
  let newProject := App.newProjectFor now file in
  let projectId := App.id newProject in
  let job := App.submitted newProject projects in
  Forall (fun j =>
            exists p,
              App.jobOf projectId j = Some p
              /\ (App.status p = App.completed
                  <-> (App.progress p == 100)%Q)
              /\ (forall s, App.phase j = App.Simulating s ->
                    App.status p <> App.completed
                    /\ (App.progress p < 100)%Q))
    (App.observe rnd projects projectId job events)
  /\ Forall (fun p => App.status p = App.completed
                      <-> (App.progress p == 100)%Q)
       App.initialProjects
  /\ (JS.unit_draws rnd -> (63 <= n)%nat ->
        let j := App.run rnd projects projectId job
                   (App.TransportComplete :: repeat App.TimerTick n) in
        App.phase j = App.Stopped
        /\ exists q, App.jobOf projectId j = Some q
                     /\ App.status q = App.completed
                     /\ App.progress q = 100%Q).
Proof.
  intros newProject projectId job. split; [| split].
  - eapply Forall_impl;
      [| apply observe_coherent, (submitted_coherent projects now file)].
    intros j Hj.
    destruct (coherent_completed_iff projectId j Hj) as (p & Ep & Hiff).
    exists p. split; [exact Ep |]. split; [exact Hiff |].
    intros s Es.
    destruct Hj as (p' & rest & Est & Eid & Hph).
    rewrite (jobOf_head projectId j p' rest Est Eid) in Ep.
    injection Ep as <-. rewrite Es in Hph.
    destruct Hph as (Hst & Hpr & _). split; [| exact Hpr].
    destruct Hst as [E | E]; rewrite E; discriminate.
  - repeat constructor; cbn; try discriminate; try reflexivity.
  - intros Hr Hn. exact (simulation_completes rnd projects now file n Hr Hn).
Qed.

Lemma completed_iff_progress_100_witness :
  let rnd : nat -> Q := fun _ => (1 # 2)%Q in
  let file := App.File.mk "clip.mp4" "video/mp4" 1048576 in
  let newProject := App.newProjectFor 1700000000000 file in
  let j := App.run rnd App.initialProjects (App.id newProject)
             (App.submitted newProject App.initialProjects)
             (App.TransportComplete :: repeat App.TimerTick 63) in
  (JS.unit_draws rnd /\ (63 <= 63)%nat)
  /\ (App.phase j = App.Stopped
      /\ exists q, App.jobOf (App.id newProject) j = Some q
                   /\ App.status q = App.completed
                   /\ App.progress q = 100%Q).
Proof.
  intros rnd file newProject j.
  assert (JS.unit_draws rnd) as H.
  { intro k. split; [unfold Qle; simpl; lia | reflexivity]. }
  destruct (completed_iff_progress_100 rnd App.initialProjects
              1700000000000 file [] 63) as (_ & _ & Hdone).
  exact (conj (conj H (le_n 63)) (Hdone H (le_n 63))).
Defined.

(** ** Submissions *)

Section Submissions.
Import App.
Local Open Scope string_scope.

(** C5 (as stated).  A second submission of a file whose first job is still
    uploading is accepted like the first one: nothing is refused, and the
    asset then has two active jobs. *)
Lemma second_submission_is_accepted :
  let file := File.mk "clip.mp4" "video/mp4" 1048576 in
  let first := handleFileUpload (Some "user") file 1700000000000
                 initialProjects in
  let second := handleFileUpload (Some "user") file 1700000000001
                  (snd first) in
  activeFor "clip.mp4" (snd first) = [newProjectFor 1700000000000 file]
  /\ fst second = Submitted (newProjectFor 1700000000001 file)
  /\ activeFor "clip.mp4" (snd second)
     = [newProjectFor 1700000000001 file; newProjectFor 1700000000000 file].
Proof. repeat split. Qed.

(** C5 (amended).  For a signed-in user and a file that passes validation a
    submission always succeeds and puts a new [uploading] job at progress 0
    in front of the list, whatever jobs the list already holds: the asset's
    earlier jobs, active or finished, are neither consulted nor changed. *)
Theorem submission_always_accepted (user : string) (file : File.t)
    (now : Z) (projects : list VideoProject) :
  Validation.valid (validateVideoFile file) = true ->
  handleFileUpload (Some user) file now projects
    = (Submitted (newProjectFor now file),
       newProjectFor now file :: projects)
  /\ status (newProjectFor now file) = uploading
  /\ progress (newProjectFor now file) = 0%Q
  /\ activeFor (File.name file)
       (snd (handleFileUpload (Some user) file now projects))
     = newProjectFor now file :: activeFor (File.name file) projects.
Proof.
  intro Hv. unfold handleFileUpload. rewrite Hv. cbn [negb snd].
  repeat split.
  unfold activeFor. cbn [filter newProjectFor name status active].
  rewrite String.eqb_refl. reflexivity.
Qed.

Lemma submission_always_accepted_witness :
  let file := File.mk "clip.mp4" "video/mp4" 1048576 in
  Validation.valid (validateVideoFile file) = true
  /\ (handleFileUpload (Some "user") file 1700000000000 initialProjects
        = (Submitted (newProjectFor 1700000000000 file),
           newProjectFor 1700000000000 file :: initialProjects)
      /\ status (newProjectFor 1700000000000 file) = uploading
      /\ progress (newProjectFor 1700000000000 file) = 0%Q
      /\ activeFor (File.name file)
           (snd (handleFileUpload (Some "user") file 1700000000000
                   initialProjects))
         = newProjectFor 1700000000000 file
             :: activeFor (File.name file) initialProjects).
Proof.
  intro file. split; [reflexivity |].
  apply (submission_always_accepted "user" file 1700000000000 initialProjects).
  reflexivity.
Defined.
End Submissions.

(** ** The timeline *)

Section Timeline.
Import VideoTimeline.
Local Open Scope Q_scope.

Lemma withinb_within (duration : Q) (s : TimelineSegment) :
  withinb duration s = true -> within duration s.
Proof.
  unfold withinb, within. intro H.
  apply andb_true_iff in H. destruct H as [H H3].
  apply andb_true_iff in H. destruct H as [H1 H2].
  apply Qle_bool_iff in H1, H3. apply ltb_lt in H2. auto.
Qed.

(** In a chain every later segment starts after the first one ends. *)
Lemma chained_after (a : TimelineSegment) (rest : list TimelineSegment) :
  chained (a :: rest) = true ->
  Forall (fun s => start s < end_ s) rest ->
  Forall (fun b => end_ a <= start b) rest.
Proof.
  revert a. induction rest as [|b rest IH]; intros a Hc Hw.
  - constructor.
  - cbn [chained] in Hc. apply andb_true_iff in Hc. destruct Hc as [Hab Hc].
    apply Qle_bool_iff in Hab. inversion Hw as [|? ? Hb Hw']; subst.
    constructor; [exact Hab |].
    eapply Forall_impl; [| exact (IH b Hc Hw')].
    cbn beta. intros c Hbc. lra.
Qed.

Lemma chained_tail (a : TimelineSegment) (rest : list TimelineSegment) :
  chained (a :: rest) = true -> chained rest = true.
Proof.
  destruct rest as [|b rest]; [reflexivity |].
  cbn [chained]. intro H. apply andb_true_iff in H. apply H.
Qed.

Lemma chained_ordered (l : list TimelineSegment) :
  chained l = true ->
  Forall (fun s => start s < end_ s) l ->
  forall i j a b, (i < j)%nat ->
    nth_error l i = Some a -> nth_error l j = Some b -> end_ a <= start b.
Proof.
  induction l as [|x rest IH]; intros Hc Hw i j a b Hij Ha Hb.
  - destruct i; discriminate.
  - inversion Hw as [|? ? Hx Hw']; subst.
    destruct j as [|j]; [lia |]. cbn [nth_error] in Hb.
    destruct i as [|i].
    + cbn in Ha. injection Ha as <-.
      pose proof (chained_after x rest Hc Hw') as Hall.
      rewrite Forall_forall in Hall. apply Hall.
      eapply nth_error_In. exact Hb.
    + cbn [nth_error] in Ha.
      apply (IH (chained_tail _ _ Hc) Hw' i j); [lia | assumption..].
Qed.

(** The linear check is enough for the three conditions. *)
Lemma check_well_formed (duration : Q) (l : list TimelineSegment) :
  check duration l = true -> well_formed duration l.
Proof.
  unfold check. intro H. apply andb_true_iff in H. destruct H as [Hw Hc].
  assert (Forall (within duration) l) as Hin.
  { rewrite forallb_forall in Hw. apply Forall_forall.
    intros s Hs. apply withinb_within, Hw, Hs. }
  assert (Forall (fun s => start s < end_ s) l) as Hlt.
  { eapply Forall_impl; [| exact Hin]. intros s Hs. apply Hs. }
  pose proof (chained_ordered l Hc Hlt) as Hord.
  split; [| split; [| exact Hin]].
  - intros i j a b Hij Ha Hb. unfold disjoint.
    destruct (Nat.lt_total i j) as [Hlt'|[Heq|Hgt]].
    + left. eapply Hord; eassumption.
    + contradiction.
    + right. eapply Hord; eassumption.
  - intros i j a b Hij Ha Hb.
    pose proof (Hord i j a b Hij Ha Hb) as Hab.
    rewrite Forall_forall in Hlt.
    pose proof (Hlt a (nth_error_In _ _ Ha)). lra.
Qed.

(** The component itself checks nothing: a non-empty list handed over in
    the [segments] prop is the list drawn.  App.tsx, its only caller, hands
    none over. *)
Lemma supplied_segments_drawn_as_given (segments : list TimelineSegment) :
  segments <> [] -> timelineSegments segments = segments.
Proof.
  intro H. destruct segments as [|s rest]; [contradiction | reflexivity].
Qed.

(** C3.  The one list of segments the program has is the built-in one:
    App.tsx mounts the timeline without a [segments] prop, so that list is
    the one drawn, over the 154 seconds App.tsx passes as duration and
    never changes.  Its segments do not overlap pairwise, come in
    ascending order of start, and each satisfies
    0 <= start < end <= duration. *)
Theorem default_segments_well_formed :
  timelineSegments [] = defaultSegments
  /\ well_formed App.duration_state (timelineSegments []).
Proof.
  split; [reflexivity |]. apply check_well_formed. reflexivity.
Qed.

(** C6 (as stated).  A click 50 pixels left of a 100 pixel wide timeline
    asks for the time -77 of a 154 second video, which is outside
    [0, 154); the handler does not fail but seeks to 0. *)
Lemma seek_before_start_goes_to_zero :
  let rect := mkRect 0 100 in
  ~ (0 <= newTime rect (-50) 154 /\ newTime rect (-50) 154 < 154)
  /\ handleTimelineClick (Some rect) (-50) 154 = Some 0.
Proof.
  intro rect. split; [| reflexivity].
  intros [H _]. revert H. vm_compute. intro H. apply H. reflexivity.
Qed.

(** C6 (amended).  A click on a mounted timeline (of positive width, where
    [newTime] is the quotient the engine computes) never fails: it seeks to
    the requested time clamped to [0, duration], so a time before 0 becomes
    0, a time after the duration becomes the duration, and a time in
    between is kept. *)
Theorem seek_is_clamped (rect : Rect) (clientX duration : Q) :
  0 < width rect -> 0 <= duration ->
  exists t,
    handleTimelineClick (Some rect) clientX duration = Some t
    /\ 0 <= t <= duration
    /\ (newTime rect clientX duration <= 0 -> t == 0)
    /\ (duration <= newTime rect clientX duration -> t == duration)
    /\ (0 <= newTime rect clientX duration <= duration ->
          t == newTime rect clientX duration).
Proof.
  intros _ Hd. unfold handleTimelineClick.
  set (x := newTime rect clientX duration).
  eexists. split; [reflexivity |].
  destruct (Math_min_spec duration x) as [[H1 ->]|[H1 ->]];
    [destruct (Math_max_spec 0 duration) as [[H2 ->]|[H2 ->]]
    |destruct (Math_max_spec 0 x) as [[H2 ->]|[H2 ->]]];
    repeat split; intros; lra.
Qed.

Lemma seek_is_clamped_witness :
  (0 < width (mkRect 0 100) /\ 0 <= 154)
  /\ exists t,
       handleTimelineClick (Some (mkRect 0 100)) 250 154 = Some t
       /\ 0 <= t <= 154
       /\ (newTime (mkRect 0 100) 250 154 <= 0 -> t == 0)
       /\ (154 <= newTime (mkRect 0 100) 250 154 -> t == 154)
       /\ (0 <= newTime (mkRect 0 100) 250 154 <= 154 ->
             t == newTime (mkRect 0 100) 250 154).
Proof.
  assert (0 < width (mkRect 0 100)) as Hw by reflexivity.
  assert (0 <= 154) as Hd by (unfold Qle; simpl; lia).
  split; [split; assumption |].
  apply (seek_is_clamped (mkRect 0 100) 250 154 Hw Hd).
Defined.
End Timeline.

(** ** Export estimates *)

Section Estimates.
Import ExportOptions.
Local Open Scope string_scope.

(** The object lookup with its [|| 1] fallback is the multiplier table of
    the specification. *)
Lemma resolutionMultiplier_table (resolution : string) :
  or_else (lookup resolution resolutionTable) 1%float
    = multiplier_of resolution.
Proof.
  unfold resolutionTable, multiplier_of. cbn [lookup].
  rewrite !(String.eqb_sym _ resolution).
  repeat (destruct (String.eqb resolution _); [reflexivity |]).
  reflexivity.
Qed.

Lemma multiplier_cases (resolution : string) :
  (multiplier_of resolution = 4%float
   /\ exact_multiplier resolution = 4%Q)
  \/ (multiplier_of resolution = 1%float
      /\ exact_multiplier resolution = 1%Q)
  \/ (multiplier_of resolution = 0.6%float
      /\ exact_multiplier resolution = (6 # 10)%Q)
  \/ (multiplier_of resolution = 0.3%float
      /\ exact_multiplier resolution = (3 # 10)%Q).
Proof.
  unfold multiplier_of, exact_multiplier.
  repeat match goal with
         | |- context [String.eqb resolution ?k] =>
             destruct (String.eqb resolution k)
         end; auto 6.
Qed.

(** C8 (as stated).  At 1920x1080 and quality 70 the formula
    round(45 x 1 x 70 / 100) is round(31.5) = 32, but the source computes
    45 * 1 * (70 / 100) = 31.499999999999996 in binary64 and shows 31. *)
Lemma estimate_at_quality_70_is_31 :
  let settings :=
    mkSettings "mp4" "1920x1080" 70 8000 30 "h264" 192 false false in
  exact_size (resolution settings) 70 = 32%Z
  /\ (45 * 1 * (quality settings / 100) = 31.499999999999996)%float
  /\ estimatedSizeMB (updateEstimates settings) = 31%float
  /\ estimatedSizeMB (updateEstimates settings)
     <> float_of_Z (exact_size (resolution settings) 70).
Proof.
  intro settings. repeat split.
  intro H. apply Leibniz.eqb_spec in H. vm_compute in H. discriminate.
Qed.

(** C8 (amended).  Both estimates are the same for any two settings that
    agree on resolution and quality.  For a resolution that is not the
    name of a member of [Object.prototype] and a quality of a whole number
    of percent from 0 to 100, which is all the panel can set, the size the
    source computes in binary64 is round(45 x m x quality / 100) in exact
    arithmetic, ties up, with m = 4, 1, 0.6 and 0.3 for the four listed
    resolutions and 1 for every other string, except at multiplier 1 and
    quality 70, where it is 31 and not 32. *)
Theorem estimate_is_function_of_resolution_and_quality
    (settings : ExportSettings) (q : Z) :
  inherited (resolution settings) = false ->
  quality settings = float_of_Z q -> (0 <= q <= 100)%Z ->
  (estimatedSizeMB (updateEstimates settings)
     = float_of_Z (exact_size (resolution settings) q)
   \/ (exact_multiplier (resolution settings) = 1%Q /\ q = 70%Z
       /\ estimatedSizeMB (updateEstimates settings) = 31%float
       /\ exact_size (resolution settings) q = 32%Z))
  /\ (exact_multiplier "3840x2160" = 4%Q
      /\ exact_multiplier "1920x1080" = 1%Q
      /\ exact_multiplier "1280x720" = (6 # 10)%Q
      /\ exact_multiplier "854x480" = (3 # 10)%Q)
  /\ (forall other,
        ~ In other ["3840x2160"; "1920x1080"; "1280x720"; "854x480"] ->
        exact_multiplier other = 1%Q)
  /\ (forall settings',
        resolution settings' = resolution settings ->
        quality settings' = quality settings ->
        updateEstimates settings' = updateEstimates settings).
Proof.
  intros _ Hq Hrange.
  split; [| split; [repeat split | split]].
  - assert (In q (map Z.of_nat (seq 0 101))) as Hin.
    { apply in_map_iff. exists (Z.to_nat q).
      split; [lia | apply in_seq; lia]. }
    unfold updateEstimates, exact_size. cbn [estimatedSizeMB].
    rewrite Hq, resolutionMultiplier_table.
    destruct (multiplier_cases (resolution settings))
      as [[-> ->]|[[-> ->]|[[-> ->]|[-> ->]]]];
      vm_compute in Hin;
      repeat (destruct Hin as [<-|Hin];
              [first [left; vm_compute; reflexivity
                     | right; repeat split; vm_compute; reflexivity] |]);
      contradiction.
  - intros other Hn. unfold exact_multiplier.
    repeat match goal with
           | |- context [String.eqb other ?k] =>
               destruct (String.eqb_spec other k) as [E|_];
               [exfalso; apply Hn; rewrite E; cbn; auto 6 |]
           end.
    reflexivity.
  - intros settings' Hr Hq'. unfold updateEstimates. now rewrite Hr, Hq'.
Qed.

Lemma estimate_is_function_of_resolution_and_quality_witness :
  inherited (resolution initialSettings) = false
  /\ quality initialSettings = float_of_Z 80
  /\ (0 <= 80 <= 100)%Z
  /\ ((estimatedSizeMB (updateEstimates initialSettings)
       = float_of_Z (exact_size (resolution initialSettings) 80)
       \/ (exact_multiplier (resolution initialSettings) = 1%Q
           /\ 80%Z = 70%Z
           /\ estimatedSizeMB (updateEstimates initialSettings) = 31%float
           /\ exact_size (resolution initialSettings) 80 = 32%Z))
      /\ (exact_multiplier "3840x2160" = 4%Q
          /\ exact_multiplier "1920x1080" = 1%Q
          /\ exact_multiplier "1280x720" = (6 # 10)%Q
          /\ exact_multiplier "854x480" = (3 # 10)%Q)
      /\ (forall other,
            ~ In other ["3840x2160"; "1920x1080"; "1280x720"; "854x480"] ->
            exact_multiplier other = 1%Q)
      /\ (forall settings',
            resolution settings' = resolution initialSettings ->
            quality settings' = quality initialSettings ->
            updateEstimates settings' = updateEstimates initialSettings)).
Proof.
  assert (inherited (resolution initialSettings) = false) as H1
    by reflexivity.
  assert (quality initialSettings = float_of_Z 80) as H2 by reflexivity.
  assert (0 <= 80 <= 100)%Z as H3 by lia.
  exact (conj H1 (conj H2 (conj H3
           (estimate_is_function_of_resolution_and_quality
              initialSettings 80 H1 H2 H3)))).
Defined.

(** What the panel shows for the settings it starts with and after the
    quality slider is moved to 70: the product 45 * 0.7 falls just short of
    31.5 in binary64. *)
Lemma estimate_examples :
  updateEstimates initialSettings = mkEstimates 36 2
  /\ updateEstimates
       (mkSettings "mp4" "1920x1080" 70 8000 30 "h264" 192 false false)
     = mkEstimates 31 1
  /\ (45 * 1 * (70 / 100) = 31.499999999999996
      /\ Math_round (45 * 1 * 70 / 100) = 32)%float
  /\ option_map updateEstimates (handlePresetSelect "web" initialSettings)
     = Some (mkEstimates 18 1).
Proof. repeat split. Qed.
End Estimates.

(** * Further properties of the sources *)

(** ** Decimal strings *)

Section DecimalStrings.
Local Open Scope string_scope.

Lemma toString_inj (a b : Z) : JS.toString a = JS.toString b -> a = b.
Proof.
  unfold JS.toString. intro H.
  apply DecimalZ.to_int_inj.
  assert (forall n, NilZero.int_of_string
                      (NilZero.string_of_int (Z.to_int n))
                    = Some (Z.to_int n)) as Hparse.
  { intro n. apply NilZero.isi; destruct n; cbn; try discriminate;
      intro E; injection E as E; revert E;
      apply DecimalPos.Unsigned.to_uint_nonnil. }
  pose proof (Hparse a) as Ha. rewrite H, Hparse in Ha. now injection Ha.
Qed.
End DecimalStrings.

(** ** Jobs side by side *)

Section OtherJobs.
Import App.
Local Open Scope Q_scope.

Variable rnd : nat -> Q.
Variable projects : list VideoProject.
Variable projectId : string.

Lemma mapProject_other (f : VideoProject -> VideoProject)
    (l : list VideoProject) (i : nat) (p : VideoProject) :
  nth_error l i = Some p -> id p <> projectId ->
  nth_error (mapProject projectId f l) i = Some p.
Proof.
  intros Hn Hid. unfold mapProject. rewrite nth_error_map, Hn. cbn.
  destruct (String.eqb_spec (id p) projectId); [contradiction | reflexivity].
Qed.

Lemma mapProject_ids (f : VideoProject -> VideoProject)
    (l : list VideoProject) :
  (forall p, id (f p) = id p) ->
  map id (mapProject projectId f l) = map id l.
Proof.
  intro Hf. unfold mapProject. rewrite map_map. apply map_ext.
  intro p. destruct (String.eqb (id p) projectId); [apply Hf | reflexivity].
Qed.

Lemma generateAISuggestions_other (prev : list VideoProject) (k i : nat)
    (p : VideoProject) :
  nth_error prev i = Some p -> id p <> projectId ->
  nth_error
    (snd (fst (generateAISuggestions projects projectId prev rnd k))) i
    = Some p.
Proof.
  intros Hn Hid. unfold generateAISuggestions.
  destruct (findProject projectId projects).
  - unfold JS.bind, JS.ret. destruct (drawSuggestions rnd k) as [l k'].
    cbn [fst snd]. now apply mapProject_other.
  - exact Hn.
Qed.

Lemma generateAISuggestions_ids (prev : list VideoProject) (k : nat) :
  map id (snd (fst (generateAISuggestions projects projectId prev rnd k)))
    = map id prev.
Proof.
  unfold generateAISuggestions.
  destruct (findProject projectId projects).
  - unfold JS.bind, JS.ret. destruct (drawSuggestions rnd k) as [l k'].
    cbn [fst snd]. now apply mapProject_ids.
  - reflexivity.
Qed.

(** The state a tick leaves, whichever branch it takes. *)
Lemma tick_state (s : Sim.t) (prev : list VideoProject) (k : nat) :
  match fst (tick projects projectId s prev rnd k) with
  | Some (_, _, st) =>
      map id st = map id prev
      /\ forall i p, nth_error prev i = Some p -> id p <> projectId ->
                     nth_error st i = Some p
  | None => True
  end.
Proof.
  unfold tick, JS.bind.
  destruct (advance s rnd k) as [[s'|] k']; [| exact I].
  destruct (finished s').
  - pose proof (generateAISuggestions_ids
                  (mapProject projectId
                     (fun p => mkProject (id p) (name p) completed 100
                                 (Some "1:45"%string) (size p)
                                 (aiSuggestions p)) prev) k') as Hids.
    pose proof (fun i p => generateAISuggestions_other
                  (mapProject projectId
                     (fun p => mkProject (id p) (name p) completed 100
                                 (Some "1:45"%string) (size p)
                                 (aiSuggestions p)) prev) k' i p) as Hoth.
    destruct (generateAISuggestions _ _ _ rnd k') as [g k''].
    cbn [JS.ret fst snd] in *. split.
    + rewrite Hids. now apply mapProject_ids.
    + intros i p Hn Hid. apply Hoth; [| exact Hid].
      now apply mapProject_other.
  - cbn [JS.ret fst]. split.
    + now apply mapProject_ids.
    + intros i p Hn Hid. now apply mapProject_other.
Qed.

Lemma deliver_other (j : Job) (e : Event) :
  map id (state (deliver rnd projects projectId j e)) = map id (state j)
  /\ forall i p, nth_error (state j) i = Some p -> id p <> projectId ->
       nth_error (state (deliver rnd projects projectId j e)) i = Some p.
Proof.
  unfold deliver. destruct (phase j) as [|s|].
  - destruct e; cbn [state];
      try (split; [reflexivity | now auto]);
      (split; [now apply mapProject_ids
              | intros i p Hn Hid; now apply mapProject_other]).
  - destruct e; try (split; [reflexivity | now auto]).
    pose proof (tick_state s (state j) (cursor j)) as H.
    destruct (tick projects projectId s (state j) rnd (cursor j))
      as [[[[[|] s'] st]|] k]; cbn [fst state] in *;
      try exact H; split; [reflexivity | now auto].
  - destruct e; split; (reflexivity || now auto).
Qed.

Lemma run_other (events : list Event) (j : Job) :
  map id (state (run rnd projects projectId j events)) = map id (state j)
  /\ forall i p, nth_error (state j) i = Some p -> id p <> projectId ->
       nth_error (state (run rnd projects projectId j events)) i = Some p.
Proof.
  revert j. unfold run.
  induction events as [|e rest IH]; intro j; cbn [fold_left].
  - split; [reflexivity | now auto].
  - destruct (IH (deliver rnd projects projectId j e)) as [Hids Hoth].
    destruct (deliver_other j e) as [Hids' Hoth'].
    split; [congruence |].
    intros i p Hn Hid. apply Hoth; [| exact Hid]. now apply Hoth'.
Qed.

(** X1. Whatever events reach a job, every project with another id stays
    as it is, at the place it has in the list, and neither the order nor
    the number of the projects changes. *)
Theorem other_projects_untouched (events : list Event) (j : Job) :
  List.length (state (run rnd projects projectId j events))
    = List.length (state j)
  /\ map id (state (run rnd projects projectId j events)) = map id (state j)
  /\ forall i p, nth_error (state j) i = Some p -> id p <> projectId ->
       nth_error (state (run rnd projects projectId j events)) i = Some p.
Proof.
  destruct (run_other events j) as [Hids Hoth].
  split; [| split; assumption].
  rewrite <- (length_map id), Hids. apply length_map.
Qed.
End OtherJobs.

(** ** What the page shows while a job runs *)

Section PageState.
Import App.
Local Open Scope Q_scope.

Variable rnd : nat -> Q.
Variable projects : list VideoProject.
Variable projectId : string.

Lemma mapProject_unsuggested (f : VideoProject -> VideoProject)
    (l : list VideoProject) :
  (forall p, aiSuggestions (f p) = aiSuggestions p) ->
  unsuggested l -> unsuggested (mapProject projectId f l).
Proof.
  intros Hf Hl. unfold unsuggested, mapProject in *.
  rewrite Forall_map. eapply Forall_impl; [| exact Hl].
  intros p Hp. cbn beta.
  destruct (String.eqb (id p) projectId); [now rewrite Hf | exact Hp].
Qed.

Hypothesis fresh : findProject projectId projects = None.

Lemma deliver_unsuggested (j : Job) (e : Event) :
  unsuggested (state j) ->
  unsuggested (state (deliver rnd projects projectId j e)).
Proof.
  intro Hj. unfold deliver. destruct (phase j) as [|s|].
  - destruct e; cbn [state]; try exact Hj;
      now apply mapProject_unsuggested.
  - destruct e; try exact Hj.
    unfold tick, JS.bind.
    destruct (advance s rnd (cursor j)) as [[s'|] k']; [| exact Hj].
    destruct (finished s').
    + rewrite generateAISuggestions_stale by exact fresh.
      cbn [JS.ret snd state]. now apply mapProject_unsuggested.
    + cbn [JS.ret state]. now apply mapProject_unsuggested.
  - now destruct e.
Qed.

Lemma unsuggested_shows_nothing (l : list VideoProject) :
  unsuggested l -> shownSuggestions l = [].
Proof.
  intro Hl. unfold shownSuggestions.
  destruct (find _ l) as [p|] eqn:E; [| reflexivity].
  apply find_some in E. destruct E as [Hin _].
  unfold unsuggested in Hl. rewrite Forall_forall in Hl.
  now rewrite (Hl p Hin).
Qed.

Lemma observe_unsuggested (events : list Event) (j : Job) :
  unsuggested (state j) ->
  Forall (fun j => unsuggested (state j) /\ shownSuggestions (state j) = [])
    (observe rnd projects projectId j events).
Proof.
  revert j. induction events as [|e rest IH]; intros j Hj; cbn [observe].
  - constructor; [| constructor].
    split; [exact Hj | now apply unsuggested_shows_nothing].
  - constructor.
    + split; [exact Hj | now apply unsuggested_shows_nothing].
    + apply IH. now apply deliver_unsuggested.
Qed.
End PageState.

(** X2. A job whose id is not in the list its handler captured never gets
    suggestions: if no project carried any when it was submitted, none does
    in any later state, the job's completion included, and the suggestions
    panel stays empty. *)
Theorem fresh_job_never_shows_suggestions (rnd : nat -> Q)
    (projects : list App.VideoProject) (now : Z) (file : App.File.t)
    (events : list App.Event) :
  App.findProject (App.id (App.newProjectFor now file)) projects = None ->
  App.unsuggested projects ->
  Forall (fun j => App.unsuggested (App.state j)
                   /\ App.shownSuggestions (App.state j) = [])
    (App.observe rnd projects (App.id (App.newProjectFor now file))
       (App.submitted (App.newProjectFor now file) projects) events).
Proof.
  intros Hfresh Hall. apply observe_unsuggested; [exact Hfresh |].
  constructor; [reflexivity | exact Hall].
Qed.

Lemma fresh_job_never_shows_suggestions_witness :
  let file := App.File.mk "clip.mp4" "video/mp4" 1048576 in
  let now := 1700000000000%Z in
  let events := App.TransportComplete :: repeat App.TimerTick 40 in
  (App.findProject (App.id (App.newProjectFor now file)) App.initialProjects
     = None
   /\ App.unsuggested App.initialProjects)
  /\ Forall (fun j => App.unsuggested (App.state j)
                      /\ App.shownSuggestions (App.state j) = [])
       (App.observe (fun _ => (1 # 2)%Q) App.initialProjects
          (App.id (App.newProjectFor now file))
          (App.submitted (App.newProjectFor now file) App.initialProjects)
          events).
Proof.
  intros file now events.
  assert (App.findProject (App.id (App.newProjectFor now file))
            App.initialProjects = None) as Hfresh by reflexivity.
  assert (App.unsuggested App.initialProjects) as Hall
    by (repeat constructor).
  split; [split; assumption |].
  apply (fresh_job_never_shows_suggestions (fun _ => (1 # 2)%Q)
           App.initialProjects now file events Hfresh Hall).
Defined.

Section AlwaysProcessing.
Import App.

Lemma observe_run (rnd : nat -> Q) (projects : list VideoProject)
    (projectId : string) (events : list Event) (j j' : Job) :
  In j' (observe rnd projects projectId j events) ->
  exists done, j' = run rnd projects projectId j done.
Proof.
  revert j. induction events as [|e rest IH]; intros j Hin; cbn in Hin.
  - destruct Hin as [<-|[]]. now exists [].
  - destruct Hin as [<-|Hin]; [now exists [] |].
    destruct (IH _ Hin) as (done & ->). now exists (e :: done).
Qed.

(** X3. The second of the two projects the page starts with is [processing]
    and no timer ever advances it, so from the first render on, whatever a
    submitted job does, the page tells the insights panel that processing
    is under way (the job's id must differ from that project's, which holds
    for every [Date.now()] but 2). *)
Theorem insights_panel_always_processing (rnd : nat -> Q) (now : Z)
    (file : File.t) (events : list Event) :
  now <> 2%Z ->
  isProcessing initialProjects = true
  /\ Forall (fun j => isProcessing (state j) = true)
       (observe rnd initialProjects (id (newProjectFor now file))
          (submitted (newProjectFor now file) initialProjects) events).
Proof.
  intro Hnow. split; [reflexivity |].
  apply Forall_forall. intros j Hj.
  apply observe_run in Hj. destruct Hj as (done & ->).
  destruct (run_other rnd initialProjects
              (id (newProjectFor now file)) done
              (submitted (newProjectFor now file) initialProjects))
    as [_ Hoth].
  specialize (Hoth 2%nat _ eq_refl).
  assert (nth_error
            (state (run rnd initialProjects (id (newProjectFor now file))
                      (submitted (newProjectFor now file) initialProjects)
                      done)) 2
          = Some (mkProject "2" "Product Demo.mov" processing 67
                    (Some "1:12"%string) (Some "28.1 MB"%string) None))
    as Hn.
  { apply Hoth. cbn [id newProjectFor]. intro E.
    apply Hnow. symmetry. apply toString_inj. exact E. }
  unfold isProcessing. apply existsb_exists.
  eexists. split; [eapply nth_error_In; exact Hn | reflexivity].
Qed.

Lemma insights_panel_always_processing_witness :
  let file := File.mk "clip.mp4" "video/mp4" 1048576 in
  (1700000000000 <> 2)%Z
  /\ (isProcessing initialProjects = true
      /\ Forall (fun j => isProcessing (state j) = true)
           (observe (fun _ => (1 # 2)%Q) initialProjects
              (id (newProjectFor 1700000000000 file))
              (submitted (newProjectFor 1700000000000 file) initialProjects)
              (TransportComplete :: repeat TimerTick 70))).
Proof.
  intro file.
  assert (1700000000000 <> 2)%Z as H by lia.
  split; [exact H |].
  apply (insights_panel_always_processing (fun _ => (1 # 2)%Q)
           1700000000000 file (TransportComplete :: repeat TimerTick 70) H).
Defined.
End AlwaysProcessing.

(** ** Progress once the timer runs *)

Section Ticking.
Import App.
Local Open Scope Q_scope.

Variable rnd : nat -> Q.
Hypothesis rnd_unit : JS.unit_draws rnd.
Variable projects : list VideoProject.
Variable projectId : string.

Lemma synced_progressOf (j : Job) :
  synced projectId j -> 0 <= progressOf projectId j <= 100.
Proof.
  intros (p & rest & Est & Eid & Hph).
  unfold progressOf. rewrite (jobOf_head projectId j p rest Est Eid).
  destruct (phase j); [contradiction | |].
  - destruct Hph as (-> & H0 & H1 & _). lra.
  - rewrite Hph. lra.
Qed.

(** A tick keeps job and counter together and never lowers the reading. *)
Lemma synced_tick (j : Job) :
  synced projectId j ->
  synced projectId (deliver rnd projects projectId j TimerTick)
  /\ progressOf projectId j
     <= progressOf projectId (deliver rnd projects projectId j TimerTick).
Proof.
  intros (p & rest & Est & Eid & Hph).
  unfold progressOf at 1. rewrite (jobOf_head projectId j p rest Est Eid).
  unfold deliver. unfold progressOf, jobOf.
  destruct (phase j) as [|s|] eqn:Eph; [contradiction | |].
  - destruct Hph as (Ep & H0 & H1 & Hidx).
    unfold tick, JS.bind.
    destruct (advance s rnd (cursor j)) as [[s'|] k'] eqn:Eadv.
    2: { exfalso. revert Eadv. unfold advance.
         destruct (nth_error processingSteps (Sim.currentStepIndex s))
           as [currentStep|] eqn:Enth.
         - destruct (JS.ltb (Sim.progress s) (Step.progress currentStep));
             unfold JS.bind, JS.Math_random, JS.ret; discriminate.
         - apply nth_error_None in Enth. lia. }
    pose proof (advance_monotone rnd rnd_unit s s' _ _ Eadv) as Hmono.
    assert (0 <= Sim.progress s' <= 100) as Hb.
    { apply (advance_bounded rnd rnd_unit s s' _ _ Eadv). lra. }
    destruct (finished s') eqn:Efin.
    + rewrite Est, (mapProject_head projectId) by exact Eid.
      destruct (generateAISuggestions_head rnd projects projectId
                  (mkProject (id p) (name p) completed 100
                     (Some "1:45"%string) (size p) (aiSuggestions p))
                  (mapProject projectId
                     (fun p => mkProject (id p) (name p) completed 100
                                 (Some "1:45"%string) (size p)
                                 (aiSuggestions p)) rest)
                  k' Eid)
        as (q & rest' & Eg & Eq & Hs & Hp).
      destruct (generateAISuggestions _ _ _ rnd k') as [g k''].
      cbn [JS.ret fst snd state phase] in *. rewrite Eg.
      unfold findProject. cbn [find]. rewrite Eq, String.eqb_refl.
      split; [| rewrite Hp, Ep; cbn; lra].
      exists q, rest'. cbn. auto.
    + apply finished_false in Efin. destruct Efin as [Hlt Hix].
      rewrite Est, (mapProject_head projectId) by exact Eid.
      cbn [JS.ret state phase]. unfold findProject. cbn [find id].
      rewrite Eid, String.eqb_refl. cbn [progress].
      split; [| rewrite Ep; exact Hmono].
      eexists _, _. cbn. split; [reflexivity |]. split; [reflexivity |].
      repeat split; try assumption. apply Hb.
  - rewrite Est. unfold findProject. cbn [find].
    rewrite Eid, String.eqb_refl.
    split; [| lra]. exists p, rest. rewrite Eph. auto.
Qed.

Lemma synced_observe (n : nat) (j : Job) :
  synced projectId j ->
  nondecreasing
    (map (progressOf projectId)
       (observe rnd projects projectId j (repeat TimerTick n)))
  /\ Forall (fun j' => 0 <= progressOf projectId j' <= 100)
       (observe rnd projects projectId j (repeat TimerTick n)).
Proof.
  revert j. induction n as [|n IH]; intros j Hj; cbn [repeat observe map].
  - split; [exact I |]. constructor; [| constructor].
    now apply synced_progressOf.
  - destruct (synced_tick j Hj) as [Hj' Hle].
    destruct (IH _ Hj') as [Hnd Hall].
    split; [| constructor; [now apply synced_progressOf | exact Hall]].
    destruct n; cbn [repeat observe map] in *; split; assumption.
Qed.
End Ticking.

(** The first tick after the upload leaves job and counter together. *)
Lemma ticking_synced (rnd : nat -> Q) (projects : list App.VideoProject)
    (now : Z) (file : App.File.t) :
  JS.unit_draws rnd ->
  App.synced (App.id (App.newProjectFor now file))
    (App.ticking rnd projects now file).
Proof.
  intro Hr. unfold App.ticking, App.run. cbn [fold_left].
  unfold App.deliver at 2. cbn [App.phase App.submitted App.state App.cursor].
  unfold App.deliver. cbn [App.phase App.state App.cursor].
  unfold App.tick, App.advance, App.simulateProcessing, JS.bind.
  cbn [nth_error App.processingSteps App.Sim.currentStepIndex
       App.Sim.progress App.Step.progress].
  assert (JS.ltb 0 15 = true) as -> by reflexivity.
  unfold JS.Math_random, JS.ret.
  pose proof (Hr 0%nat) as [Hlo Hhi].
  set (q := JS.Math_min (0 + (rnd 0%nat * 8 + 2)) 15).
  assert (0 <= q /\ q <= 10)%Q as Hq.
  { subst q. destruct (Math_min_spec (0 + (rnd 0%nat * 8 + 2)) 15)
      as [[? ->]|[? ->]]; lra. }
  assert (App.finished (App.Sim.mk q 0) = false) as ->.
  { unfold App.finished. cbn. rewrite orb_false_r. apply geb_lt. lra. }
  unfold App.uploadResolved. cbn [App.state].
  rewrite !(mapProject_head (App.id (App.newProjectFor now file)))
    by reflexivity.
  eexists _, _. cbn. split; [reflexivity |]. split; [reflexivity |].
  repeat split; try lra; lia.
Qed.

(** X4. Once the upload has resolved and the first tick has run, the
    progress an observer reads off the job never decreases from one tick to
    the next, for any draws, and stays within [0, 100]. *)
Theorem progress_never_decreases_while_ticking (rnd : nat -> Q)
    (projects : list App.VideoProject) (now : Z) (file : App.File.t)
    (n : nat) :
  JS.unit_draws rnd ->
  let projectId := App.id (App.newProjectFor now file) in
  let readings :=
    App.observe rnd projects projectId (App.ticking rnd projects now file)
      (repeat App.TimerTick n) in
  App.nondecreasing (map (App.progressOf projectId) readings)
  /\ Forall (fun j => 0 <= App.progressOf projectId j <= 100)%Q readings.
Proof.
  intros Hr projectId readings.
  apply synced_observe; [exact Hr |]. now apply ticking_synced.
Qed.

Lemma progress_never_decreases_while_ticking_witness :
  let file := App.File.mk "clip.mp4" "video/mp4" 1048576 in
  let projectId := App.id (App.newProjectFor 1700000000000 file) in
  let readings :=
    App.observe (fun _ => (1 # 2)%Q) App.initialProjects projectId
      (App.ticking (fun _ => (1 # 2)%Q) App.initialProjects 1700000000000
         file)
      (repeat App.TimerTick 30) in
  JS.unit_draws (fun _ => (1 # 2)%Q)
  /\ (App.nondecreasing (map (App.progressOf projectId) readings)
      /\ Forall (fun j => 0 <= App.progressOf projectId j <= 100)%Q
           readings).
Proof.
  intros file projectId readings.
  assert (JS.unit_draws (fun _ => (1 # 2)%Q)) as H.
  { intro k. split; [unfold Qle; simpl; lia | reflexivity]. }
  split; [exact H |].
  apply (progress_never_decreases_while_ticking (fun _ => (1 # 2)%Q)
           App.initialProjects 1700000000000 file 30 H).
Defined.

(** ** How long the simulation runs *)

Section Duration.
Import App.
Local Open Scope Q_scope.

Variable rnd : nat -> Q.
Hypothesis rnd_closed : JS.closed_draws rnd.

(** Every comparison in the goal becomes a hypothesis. *)
Ltac tests :=
  repeat match goal with
         | |- context [JS.geb ?a ?b] =>
             let E := fresh "E" in
             destruct (JS.geb a b) eqn:E;
             [apply geb_ge in E | apply geb_lt in E]
         | |- context [JS.ltb ?a ?b] =>
             let E := fresh "E" in
             destruct (JS.ltb a b) eqn:E;
             [apply ltb_lt in E | apply ltb_ge in E]
         end.

Ltac settle := first [lia | discriminate | exfalso; lra | lra].

(** One run of the first half of the callback lowers the count by one at
    most, and ends the job only from a count of one at most. *)
Lemma advance_remaining (s : Sim.t) (k : nat) :
  inStep s -> Sim.progress s < 100 ->
  exists s' k',
    advance s rnd k = (Some s', k')
    /\ ((finished s' = true /\ (remaining s <= 1)%Z)
        \/ (finished s' = false /\ inStep s'
            /\ (remaining s <= remaining s' + 1)%Z)).
Proof.
  intros (Hi & Hlo & Hhi) Hp.
  destruct s as [p i]. cbn [Sim.progress Sim.currentStepIndex] in *.
  pose proof (rnd_closed k) as [Hr0 Hr1].
  cbn [List.length processingSteps] in Hi.
  do 7 (destruct i as [|i];
        [unfold baseOf, targetOf in Hlo, Hhi;
         cbn [nth_error processingSteps Step.progress] in Hlo, Hhi;
         unfold advance;
         cbn [nth_error processingSteps Step.progress Sim.progress
              Sim.currentStepIndex];
         match goal with
         | |- context [JS.ltb p ?t] =>
             destruct (JS.ltb p t) eqn:Elt;
             [apply ltb_lt in Elt | apply ltb_ge in Elt]
         end;
         unfold JS.bind, JS.Math_random, JS.ret;
         (eexists _, _; split; [reflexivity |]);
         try match goal with
             | |- context [JS.Math_min ?a ?b] =>
                 destruct (Math_min_spec a b) as [[Hm ->]|[Hm ->]]
             end;
         unfold finished, remaining, inStep, baseOf, targetOf;
         cbn [nth_error processingSteps Step.progress Sim.progress
              Sim.currentStepIndex List.length Nat.leb Nat.ltb orb];
         tests; cbn [orb];
         first [ left; split; [reflexivity | settle]
               | right; split; [reflexivity |];
                 split; [repeat split; settle | settle] ]
        |]).
  lia.
Qed.

Variable projects : list VideoProject.
Variable projectId : string.

(** Fewer ticks than the count leave the timer running. *)
Lemma ticks_still_running (n : nat) :
  forall (j : Job) (s : Sim.t),
    phase j = Simulating s -> coherent projectId j ->
    inStep s -> Sim.progress s < 100 ->
    (Z.of_nat n < remaining s)%Z ->
    exists s',
      phase (run rnd projects projectId j (repeat TimerTick n))
        = Simulating s'.
Proof.
  induction n as [|n IH]; intros j s Eph Hc Hin Hp Hrem.
  - exists s. exact Eph.
  - cbn [repeat]. unfold run. cbn [fold_left].
    change (fold_left (deliver rnd projects projectId) (repeat TimerTick n)
              (deliver rnd projects projectId j TimerTick))
      with (run rnd projects projectId
              (deliver rnd projects projectId j TimerTick)
              (repeat TimerTick n)).
    destruct (deliver_tick rnd projects projectId j s Eph Hc)
      as (s' & k' & Eadv & _ & Hrun).
    destruct (advance_remaining s (cursor j) Hin Hp)
      as (s'' & k'' & Eadv' & Hcase).
    rewrite Eadv in Eadv'. injection Eadv' as <- <-.
    destruct Hcase as [[_ H1]|(Efin & Hin' & Hrem')]; [lia |].
    apply (IH _ s' (Hrun Efin)).
    + apply deliver_coherent, Hc.
    + exact Hin'.
    + now apply finished_false in Efin.
    + lia.
Qed.
End Duration.

(** X5. A job whose upload succeeds is still running, short of 100 and
    not [completed], after fewer than 19 ticks, whatever the draws in
    [0, 1]: each of the first six steps takes two increases and one more
    tick, and the last step one increase at least.  Nineteen ticks are
    enough only when the last increase is 10, the value [r * 8 + 2] can
    round to in binary64 for a draw just below 1. *)
Theorem processing_takes_19_ticks (rnd : nat -> Q)
    (projects : list App.VideoProject) (now : Z) (file : App.File.t)
    (n : nat) :
  JS.closed_draws rnd -> (n < 19)%nat ->
  let newProject := App.newProjectFor now file in
  let j := App.run rnd projects (App.id newProject)
             (App.submitted newProject projects)
             (App.TransportComplete :: repeat App.TimerTick n) in
  (exists s, App.phase j = App.Simulating s)
  /\ exists q, App.jobOf (App.id newProject) j = Some q
               /\ App.status q <> App.completed
               /\ (App.progress q < 100)%Q.
Proof.
  intros Hr Hn newProject j.
  assert (exists s, App.phase j = App.Simulating s) as [s Es].
  { subst j. unfold App.run. cbn [fold_left].
    apply (ticks_still_running rnd Hr projects (App.id newProject) n _
             App.simulateProcessing).
    - reflexivity.
    - apply deliver_coherent, submitted_coherent.
    - unfold App.inStep. cbn. repeat split; try lia;
        unfold Qle; simpl; lia.
    - reflexivity.
    - unfold App.remaining. cbn. lia. }
  split; [now exists s |].
  assert (App.coherent (App.id newProject) j) as (p & rest & Est & Eid & H).
  { apply run_coherent, submitted_coherent. }
  rewrite Es in H. destruct H as (Hst & Hpr & _).
  exists p. split; [eapply jobOf_head; eassumption |].
  split; [| exact Hpr].
  destruct Hst as [-> | ->]; discriminate.
Qed.

Lemma processing_takes_19_ticks_witness :
  let rnd : nat -> Q := fun _ => 1%Q in
  let file := App.File.mk "clip.mp4" "video/mp4" 1048576 in
  let newProject := App.newProjectFor 1700000000000 file in
  let j := App.run rnd App.initialProjects (App.id newProject)
             (App.submitted newProject App.initialProjects)
             (App.TransportComplete :: repeat App.TimerTick 18) in
  (JS.closed_draws rnd /\ (18 < 19)%nat)
  /\ ((exists s, App.phase j = App.Simulating s)
      /\ exists q, App.jobOf (App.id newProject) j = Some q
                   /\ App.status q <> App.completed
                   /\ (App.progress q < 100)%Q).
Proof.
  intros rnd file newProject j.
  assert (JS.closed_draws rnd) as H.
  { intro k. split; apply Qle_bool_iff; reflexivity. }
  assert (18 < 19)%nat as Hn by lia.
  exact (conj (conj H Hn)
           (processing_takes_19_ticks rnd App.initialProjects
              1700000000000 file 18 H Hn)).
Defined.

(** ** The two ways a file comes in *)

Section Intake.
Import App.
Local Open Scope string_scope.

Lemma valid_allowed (file : File.t) :
  Validation.valid (validateVideoFile file) = true ->
  In (File.type file) allowedTypes /\ (File.size file <= maxSize)%Z.
Proof.
  unfold validateVideoFile.
  destruct (includes allowedTypes (File.type file)) eqn:Ety;
    cbn [negb]; [| discriminate].
  destruct (Z.gtb_spec (File.size file) maxSize); [discriminate |].
  intros _. split; [now apply includes_In | assumption].
Qed.

(** Every type the validation accepts is a [video/] type. *)
Lemma valid_isVideo (file : File.t) :
  Validation.valid (validateVideoFile file) = true -> isVideo file = true.
Proof.
  intro Hv. apply valid_allowed in Hv. destruct Hv as [Hty _].
  unfold isVideo. cbn in Hty.
  repeat (destruct Hty as [<-|Hty]; [reflexivity |]). contradiction.
Qed.

Lemma handleFileUpload_cases (user : option string) (file : File.t)
    (now : Z) (projects : list VideoProject) :
  (snd (handleFileUpload user file now projects) = projects
   /\ (user = None \/ Validation.valid (validateVideoFile file) = false))
  \/ (snd (handleFileUpload user file now projects)
        = newProjectFor now file :: projects
      /\ user <> None /\ Validation.valid (validateVideoFile file) = true).
Proof.
  unfold handleFileUpload. destruct user as [u|]; [| left; auto].
  destruct (Validation.valid (validateVideoFile file)); cbn.
  - right. repeat split. discriminate.
  - left. auto.
Qed.

(** X6. A drop uploads at most one file, the first one whose type starts
    with "video/": without such a file nothing changes; with one, the
    project list grows by that file's project exactly when a user is signed
    in and that file passes validation, and is unchanged otherwise, even if
    a later file of the drop would pass.  No file that fails the "video/"
    test could have passed validation. *)
Theorem handleDrop_spec (user : option string) (files : list File.t)
    (now : Z) (projects : list VideoProject) :
  (forall file, In file files ->
     Validation.valid (validateVideoFile file) = true -> isVideo file = true)
  /\ match find isVideo files with
     | None => handleDrop user files now projects = (InvalidFile, projects)
     | Some first =>
         (exists before after,
            files = (before ++ first :: after)%list
            /\ Forall (fun f => isVideo f = false) before)
         /\ snd (handleDrop user files now projects)
            = if match user with Some _ => true | None => false end
                 && Validation.valid (validateVideoFile first)
              then newProjectFor now first :: projects
              else projects
     end.
Proof.
  split; [intros file _; apply valid_isVideo |].
  unfold handleDrop.
  destruct (find isVideo files) as [first|] eqn:E; [| reflexivity].
  split.
  - clear - E. induction files as [|f rest IH]; [discriminate |].
    cbn in E. destruct (isVideo f) eqn:Ef.
    + injection E as <-. exists [], rest. split; [reflexivity | constructor].
    + destruct (IH E) as (before & after & -> & Hb).
      exists (f :: before), after. split; [reflexivity |].
      constructor; assumption.
  - cbn [snd]. unfold handleFileUpload. destruct user; [| reflexivity].
    now destruct (Validation.valid (validateVideoFile first)).
Qed.

(** X7. The file picker hands over only the first file of the selection
    and does nothing for an empty one; the list changes only if a user is
    signed in and that first file has an allowed type and is within the
    size limit, and then it grows by exactly that file's project, placed
    first. *)
Theorem handleInputChange_spec (user : option string) (files : list File.t)
    (now : Z) (projects : list VideoProject) :
  handleInputChange user files now projects
    = match files with
      | [] => (None, projects)
      | file :: _ =>
          (Some (fst (handleFileUpload user file now projects)),
           if match user with Some _ => true | None => false end
              && Validation.valid (validateVideoFile file)
           then newProjectFor now file :: projects
           else projects)
      end
  /\ (snd (handleInputChange user files now projects) <> projects ->
        exists file, hd_error files = Some file
                     /\ user <> None
                     /\ In (File.type file) allowedTypes
                     /\ (File.size file <= maxSize)%Z).
Proof.
  unfold handleInputChange. destruct files as [|file rest].
  - split; [reflexivity | intro H; now contradiction H].
  - cbn [snd fst hd_error].
    destruct (handleFileUpload_cases user file now projects)
      as [[E Hwhy]|(E & Hu & Hv)]; rewrite E.
    + split; [| intro H; now contradiction H].
      f_equal. destruct Hwhy as [->|Hv]; [reflexivity |].
      rewrite Hv. now rewrite andb_false_r.
    + split.
      * f_equal. rewrite Hv. now destruct user.
      * intros _. exists file. split; [reflexivity |]. split; [exact Hu |].
        now apply valid_allowed.
Qed.
End Intake.

(** ** What the suggestions say *)

Section SuggestionContent.
Import App.
Local Open Scope Q_scope.

(** [Math.floor(Math.random() * n)] is one of 0, ..., n - 1. *)
Lemma floor_draw (r : Q) (n : Z) :
  0 <= r -> r < 1 -> (0 < n)%Z ->
  (0 <= JS.Math_floor (r * inject_Z n) < n)%Z.
Proof.
  intros H0 H1 Hn. unfold JS.Math_floor.
  assert (0 < inject_Z n) as HN.
  { change 0 with (inject_Z 0). now rewrite <- Zlt_Qlt. }
  split.
  - apply Qfloor_ge. change (inject_Z 0) with 0.
    apply Qmult_le_0_compat; [exact H0 | now apply Qlt_le_weak].
  - apply Qfloor_lt.
    rewrite <- (Qmult_1_l (inject_Z n)) at 2.
    now apply Qmult_lt_compat_r.
Qed.

Lemma two_digits_Z (secs : Z) :
  (0 <= secs < 60)%Z ->
  JS.padStart 2 "0" (JS.toString secs)
    = String (JS.digit (secs / 10)) (String (JS.digit (secs mod 10)) "").
Proof.
  intro H. rewrite <- (Z2Nat.id secs) by lia. apply two_digits. lia.
Qed.

Variable rnd : nat -> Q.
Hypothesis rnd_unit : JS.unit_draws rnd.

Lemma audioSuggestion_content (k : nat) :
  exists issue mins secs,
    In issue audioIssues /\ (0 <= mins <= 2)%Z /\ (0 <= secs <= 59)%Z
    /\ audioSuggestion rnd k
       = (Suggestion.mk "audio_sync" "Audio Enhancement"
            (issue ++ " at "
               ++ (JS.toString mins ++ ":"
                     ++ String (JS.digit (secs / 10))
                          (String (JS.digit (secs mod 10)) ""))
               ++ ". Auto-fix available.")%string
            (0.75 + rnd (3 + k)%nat * 0.15) "fix_audio",
          (4 + k)%nat).
Proof.
  unfold audioSuggestion, JS.bind, JS.Math_random, JS.ret.
  destruct (rnd_unit k) as [A0 A1].
  destruct (rnd_unit (S k)) as [B0 B1].
  destruct (rnd_unit (S (S k))) as [C0 C1].
  pose proof (floor_draw (rnd k) 3 A0 A1 eq_refl) as Hi.
  pose proof (floor_draw (rnd (S k)) 3 B0 B1 eq_refl) as Hm.
  pose proof (floor_draw (rnd (S (S k))) 60 C0 C1 eq_refl) as Hs.
  change (inject_Z 3) with 3 in Hm. change (inject_Z 60) with 60 in Hs.
  change (inject_Z (Z.of_nat (List.length audioIssues)))
    with (inject_Z 3).
  rewrite (two_digits_Z _ Hs).
  generalize dependent (JS.Math_floor (rnd k * inject_Z 3)).
  generalize dependent (JS.Math_floor (rnd (S k) * 3)).
  generalize dependent (JS.Math_floor (rnd (S (S k)) * 60)).
  intros secs Hs mins Hm i Hi.
  exists (nth (Z.to_nat i) audioIssues "undefined"%string), mins, secs.
  split; [| split; [lia | split; [lia | reflexivity]]].
  apply nth_In. change (List.length audioIssues) with 3%nat. lia.
Qed.

Lemma drawSuggestions_content (k : nat) :
  exists sceneCount gain,
    (3 <= sceneCount <= 14)%Z /\ (10 <= gain <= 34)%Z /\
    let scene :=
      Suggestion.mk "scene_detection" "Scene Detection"
        ("Found " ++ JS.toString sceneCount
           ++ " distinct scenes. Auto-cut recommended.")%string
        (0.85 + rnd (1 + k)%nat * 0.1) "auto_cut" in
    let quality last :=
      Suggestion.mk "quality_enhancement" "Quality Enhancement"
        ("Video quality can be improved by " ++ JS.toString gain
           ++ "%.")%string
        (0.70 + rnd last * 0.2) "enhance_quality" in
    (rnd (2 + k)%nat <= 0.3
     /\ drawSuggestions rnd k
        = ([scene; quality (4 + k)%nat], (5 + k)%nat))
    \/ (0.3 < rnd (2 + k)%nat
        /\ exists issue mins secs,
             In issue audioIssues
             /\ (0 <= mins <= 2)%Z /\ (0 <= secs <= 59)%Z
             /\ drawSuggestions rnd k
                = ([scene;
                    Suggestion.mk "audio_sync" "Audio Enhancement"
                      (issue ++ " at "
                         ++ (JS.toString mins ++ ":"
                               ++ String (JS.digit (secs / 10))
                                    (String (JS.digit (secs mod 10)) ""))
                         ++ ". Auto-fix available.")%string
                      (0.75 + rnd (6 + k)%nat * 0.15) "fix_audio";
                    quality (8 + k)%nat], (9 + k)%nat)).
Proof.
  destruct (rnd_unit k) as [A0 A1].
  pose proof (floor_draw (rnd k) 12 A0 A1 eq_refl) as Hc.
  change (inject_Z 12) with 12 in Hc.
  exists (JS.Math_floor (rnd k * 12) + 3)%Z.
  unfold drawSuggestions, JS.bind, JS.Math_random, JS.ret.
  destruct (JS.gtb (rnd (S (S k))) 0.3) eqn:Eg.
  - apply ltb_lt in Eg. unfold JS.bind.
    destruct (audioSuggestion_content (S (S (S k))))
      as (issue & mins & secs & Hi & Hm & Hs & ->).
    change (4 + S (S (S k)))%nat with (S (S (S (S (S (S (S k))))))).
    destruct (rnd_unit (S (S (S (S (S (S (S k)))))))) as [B0 B1].
    pose proof (floor_draw _ 25 B0 B1 eq_refl) as Hg.
    change (inject_Z 25) with 25 in Hg.
    exists (JS.Math_floor (rnd (S (S (S (S (S (S (S k))))))) * 25) + 10)%Z.
    split; [lia | split; [lia |]]. cbn zeta. right.
    split; [exact Eg |]. exists issue, mins, secs.
    repeat split; try assumption; try apply Hm; try apply Hs.
  - apply ltb_ge in Eg.
    destruct (rnd_unit (S (S (S k)))) as [B0 B1].
    pose proof (floor_draw _ 25 B0 B1 eq_refl) as Hg.
    change (inject_Z 25) with 25 in Hg.
    exists (JS.Math_floor (rnd (S (S (S k))) * 25) + 10)%Z.
    split; [lia | split; [lia |]]. cbn zeta. left.
    split; [exact Eg | reflexivity].
Qed.

(** X8. For draws in [0, 1) the suggestions are the scene suggestion, then
    the audio one when the third draw is above 0.3, then the quality one.
    The scene count announced is between 3 and 14, the quality gain
    between 10 and 34 percent; the audio issue is one of the three listed
    and its time stamp has minutes 0 to 2 and two-digit seconds 00 to 59.
    Five draws are used without the audio suggestion and nine with it. *)
Theorem suggestions_content (k : nat) :
  exists sceneCount gain,
    (3 <= sceneCount <= 14)%Z /\ (10 <= gain <= 34)%Z /\
    let scene :=
      Suggestion.mk "scene_detection" "Scene Detection"
        ("Found " ++ JS.toString sceneCount
           ++ " distinct scenes. Auto-cut recommended.")%string
        (0.85 + rnd (1 + k)%nat * 0.1) "auto_cut" in
    let quality last :=
      Suggestion.mk "quality_enhancement" "Quality Enhancement"
        ("Video quality can be improved by " ++ JS.toString gain
           ++ "%.")%string
        (0.70 + rnd last * 0.2) "enhance_quality" in
    (rnd (2 + k)%nat <= 0.3
     /\ drawSuggestions rnd k
        = ([scene; quality (4 + k)%nat], (5 + k)%nat))
    \/ (0.3 < rnd (2 + k)%nat
        /\ exists issue mins secs,
             In issue audioIssues
             /\ (0 <= mins <= 2)%Z /\ (0 <= secs <= 59)%Z
             /\ drawSuggestions rnd k
                = ([scene;
                    Suggestion.mk "audio_sync" "Audio Enhancement"
                      (issue ++ " at "
                         ++ (JS.toString mins ++ ":"
                               ++ String (JS.digit (secs / 10))
                                    (String (JS.digit (secs mod 10)) ""))
                         ++ ". Auto-fix available.")%string
                      (0.75 + rnd (6 + k)%nat * 0.15) "fix_audio";
                    quality (8 + k)%nat], (9 + k)%nat)).
Proof. exact (drawSuggestions_content k). Qed.

(** [Math.round] of a number between two integers lies between them. *)
Lemma Math_round_between (x : Q) (lo hi : Z) :
  inject_Z lo <= x -> x <= inject_Z hi -> (lo <= JS.Math_round x <= hi)%Z.
Proof.
  intros Hlo Hhi. unfold JS.Math_round. split.
  - apply Qfloor_ge. lra.
  - assert (Qfloor (x + (1 # 2)) < hi + 1)%Z; [| lia].
    apply Qfloor_lt. rewrite inject_Z_plus. change (inject_Z 1) with 1. lra.
Qed.

(** X9. The percentage shown beside a generated suggestion is between 85
    and 95 for the scene suggestion, 75 and 90 for the audio one and 70 and
    90 for the quality one, so between 70 and 95 in every case. *)
Theorem confidencePercent_range (k : nat) :
  Forall (fun s =>
            (70 <= confidencePercent s <= 95)%Z
            /\ (Suggestion.type s = "scene_detection"%string ->
                  (85 <= confidencePercent s <= 95)%Z)
            /\ (Suggestion.type s = "audio_sync"%string ->
                  (75 <= confidencePercent s <= 90)%Z)
            /\ (Suggestion.type s = "quality_enhancement"%string ->
                  (70 <= confidencePercent s <= 90)%Z))
    (fst (drawSuggestions rnd k)).
Proof.
  destruct (drawSuggestions_content k) as (c & g & _ & _ & H).
  cbn zeta in H.
  assert (forall i lo hi a b,
            (inject_Z lo <= (a + 0 * b) * 100)%Q ->
            ((a + 1 * b) * 100 <= inject_Z hi)%Q -> (0 <= b)%Q ->
            (lo <= JS.Math_round ((a + rnd i * b) * 100) <= hi)%Z) as R.
  { intros i lo hi a b Hlo Hhi Hb. destruct (rnd_unit i) as [R0 R1].
    apply Math_round_between; nra. }
  destruct H as [[_ ->]|(_ & issue & mins & secs & _ & _ & _ & ->)];
    cbn [fst]; repeat apply Forall_cons; try apply Forall_nil;
    unfold confidencePercent; cbn [Suggestion.confidence Suggestion.type];
    (split; [| split; [| split]]); try discriminate; intros;
    apply R; try reflexivity; unfold Qle; simpl; lia.
Qed.
End SuggestionContent.

Lemma suggestions_content_witness :
  let half : nat -> Q := fun _ => (1 # 2)%Q in
  JS.unit_draws half
  /\ (exists sceneCount gain,
        (3 <= sceneCount <= 14)%Z /\ (10 <= gain <= 34)%Z /\
        let scene :=
          App.Suggestion.mk "scene_detection" "Scene Detection"
            ("Found " ++ JS.toString sceneCount
               ++ " distinct scenes. Auto-cut recommended.")%string
            (0.85 + half (1 + 0)%nat * 0.1) "auto_cut" in
        let quality last :=
          App.Suggestion.mk "quality_enhancement" "Quality Enhancement"
            ("Video quality can be improved by " ++ JS.toString gain
               ++ "%.")%string
            (0.70 + half last * 0.2) "enhance_quality" in
        (half (2 + 0)%nat <= 0.3
         /\ App.drawSuggestions half 0%nat
            = ([scene; quality (4 + 0)%nat], (5 + 0)%nat))
        \/ (0.3 < half (2 + 0)%nat
            /\ exists issue mins secs,
                 In issue App.audioIssues
                 /\ (0 <= mins <= 2)%Z /\ (0 <= secs <= 59)%Z
                 /\ App.drawSuggestions half 0%nat
                    = ([scene;
                        App.Suggestion.mk "audio_sync" "Audio Enhancement"
                          (issue ++ " at "
                             ++ (JS.toString mins ++ ":"
                                   ++ String (JS.digit (secs / 10))
                                        (String (JS.digit (secs mod 10)) ""))
                             ++ ". Auto-fix available.")%string
                          (0.75 + half (6 + 0)%nat * 0.15) "fix_audio";
                        quality (8 + 0)%nat], (9 + 0)%nat)))%Q.
Proof.
  intro half.
  assert (JS.unit_draws half) as H.
  { intro k. split; [unfold Qle; simpl; lia | reflexivity]. }
  exact (conj H (suggestions_content half H 0%nat)).
Defined.

Lemma confidencePercent_range_witness :
  let half : nat -> Q := fun _ => (1 # 2)%Q in
  JS.unit_draws half
  /\ Forall (fun s =>
              (70 <= App.confidencePercent s <= 95)%Z
              /\ (App.Suggestion.type s = "scene_detection"%string ->
                    (85 <= App.confidencePercent s <= 95)%Z)
              /\ (App.Suggestion.type s = "audio_sync"%string ->
                    (75 <= App.confidencePercent s <= 90)%Z)
              /\ (App.Suggestion.type s = "quality_enhancement"%string ->
                    (70 <= App.confidencePercent s <= 90)%Z))
      (fst (App.drawSuggestions half 0%nat)).
Proof.
  intro half.
  assert (JS.unit_draws half) as H.
  { intro k. split; [unfold Qle; simpl; lia | reflexivity]. }
  exact (conj H (confidencePercent_range half H 0%nat)).
Defined.

(** ** Drawing the timeline *)

Section Geometry.
Import VideoTimeline.
Local Open Scope Q_scope.

(** What a positive duration's inverse is needed for. *)
Lemma inverse_positive (duration : Q) :
  0 < duration -> 0 < / duration /\ duration * / duration == 1.
Proof.
  intro Hd. split; [now apply Qinv_lt_0_compat | apply Qmult_inv_r; lra].
Qed.

(** X10. On a video of positive duration a segment with
    0 <= start < end <= duration gets a left offset between 0 and 100
    percent and a positive width of 100 percent at most; a segment that
    starts later gets no smaller an offset, and a longer one no smaller a
    width.  These are the two numbers the source computes: where the right
    edge falls is left to the layout. *)
Theorem segments_drawn_inside (duration : Q) (a b : TimelineSegment) :
  0 < duration -> within duration a ->
  (0 <= getSegmentLeft duration a /\ getSegmentLeft duration a <= 100
   /\ 0 < getSegmentWidth duration a /\ getSegmentWidth duration a <= 100)
  /\ (start a <= start b ->
        getSegmentLeft duration a <= getSegmentLeft duration b)
  /\ (end_ a - start a <= end_ b - start b ->
        getSegmentWidth duration a <= getSegmentWidth duration b).
Proof.
  intros Hd (H0 & H1 & H2).
  unfold getSegmentLeft, getSegmentWidth, Qdiv.
  destruct (inverse_positive duration Hd) as [Hc Hdc].
  set (c := / duration) in *.
  repeat split; intros; nra.
Qed.

Lemma clamp_between (duration x : Q) :
  0 <= duration ->
  0 <= JS.Math_max 0 (JS.Math_min duration x) <= duration
  /\ (0 <= x <= duration -> JS.Math_max 0 (JS.Math_min duration x) == x).
Proof.
  intro Hd.
  destruct (Math_min_spec duration x) as [[H1 E1]|[H1 E1]]; rewrite E1;
    [destruct (Math_max_spec 0 duration) as [[H2 E2]|[H2 E2]]
    |destruct (Math_max_spec 0 x) as [[H2 E2]|[H2 E2]]];
    rewrite E2; repeat split; intros; lra.
Qed.

Lemma clamp_monotone (duration x y : Q) :
  x <= y ->
  JS.Math_max 0 (JS.Math_min duration x)
    <= JS.Math_max 0 (JS.Math_min duration y).
Proof.
  intro Hxy.
  destruct (Math_min_spec duration x) as [[H1 E1]|[H1 E1]]; rewrite E1;
    destruct (Math_min_spec duration y) as [[H2 E2]|[H2 E2]]; rewrite E2;
    match goal with
    | |- JS.Math_max 0 ?u <= JS.Math_max 0 ?v =>
        destruct (Math_max_spec 0 u) as [[H3 E3]|[H3 E3]];
        destruct (Math_max_spec 0 v) as [[H4 E4]|[H4 E4]];
        rewrite ?E3, ?E4
    end; lra.
Qed.

(** The clamp at and beyond the two ends. *)
Lemma clamp_ends (duration x : Q) :
  0 <= duration ->
  (x <= 0 -> JS.Math_max 0 (JS.Math_min duration x) == 0)
  /\ (duration <= x -> JS.Math_max 0 (JS.Math_min duration x) == duration).
Proof.
  intro Hd.
  destruct (Math_min_spec duration x) as [[H1 E1]|[H1 E1]]; rewrite E1;
    [destruct (Math_max_spec 0 duration) as [[H2 E2]|[H2 E2]]
    |destruct (Math_max_spec 0 x) as [[H2 E2]|[H2 E2]]];
    rewrite E2; split; intros; lra.
Qed.

(** X11. A click on a timeline of positive width over a video of positive
    duration always leaves the playhead inside the bar, between 0 and 100
    percent: at 0 for a click at or left of the bar's left edge, at 100 for
    one at or right of its right edge, and never further left for a click
    further right. *)
Theorem click_places_playhead (rect : Rect) (clientX duration : Q) :
  0 < width rect -> 0 < duration ->
  exists t,
    handleTimelineClick (Some rect) clientX duration = Some t
    /\ 0 <= getCurrentPosition t duration <= 100
    /\ (clientX <= left rect -> getCurrentPosition t duration == 0)
    /\ (left rect + width rect <= clientX ->
          getCurrentPosition t duration == 100)
    /\ (forall x2, clientX <= x2 ->
          exists t2,
            handleTimelineClick (Some rect) x2 duration = Some t2
            /\ getCurrentPosition t duration
               <= getCurrentPosition t2 duration).
Proof.
  intros Hw Hd. unfold handleTimelineClick. eexists. split; [reflexivity |].
  destruct (clamp_between duration (newTime rect clientX duration))
    as [[Hlo Hhi] _]; [lra |].
  destruct (clamp_ends duration (newTime rect clientX duration))
    as [Hzero Hfull]; [lra |].
  destruct (inverse_positive duration Hd) as [Hc Hdc].
  destruct (inverse_positive (width rect) Hw) as [Hv Hwv].
  assert (forall x, newTime rect x duration
                    == (x - left rect) * / width rect * duration) as Ex
    by (intro x; reflexivity).
  assert (forall x y, x <= y ->
            newTime rect x duration <= newTime rect y duration) as Hmono.
  { intros x y Hxy. rewrite !Ex. set (v := / width rect) in *.
    assert ((x - left rect) * v <= (y - left rect) * v) as Hp by nra.
    apply Qmult_le_compat_r; [exact Hp | lra]. }
  unfold getCurrentPosition, Qdiv.
  set (t := JS.Math_max 0 (JS.Math_min duration _)) in *.
  set (c := / duration) in *.
  split; [split; nra |]. split; [| split].
  - intro Hl.
    assert (t == 0) as Et.
    { apply Hzero. rewrite Ex. set (v := / width rect) in *.
      assert ((clientX - left rect) * v <= 0) as Hp by nra. nra. }
    rewrite Et. lra.
  - intro Hr.
    assert (t == duration) as Et.
    { apply Hfull. rewrite Ex. set (v := / width rect) in *.
      assert (1 <= (clientX - left rect) * v) as Hp by nra. nra. }
    rewrite Et. nra.
  - intros x2 Hx. eexists. split; [reflexivity |].
    pose proof (clamp_monotone duration _ _ (Hmono clientX x2 Hx)) as Hle.
    apply Qmult_le_compat_r; [| lra].
    apply Qmult_le_compat_r; [exact Hle | lra].
Qed.

(** X12. On a timeline of positive width a click further to the right
    never seeks to an earlier time. *)
Theorem click_is_monotone (rect : Rect) (x1 x2 duration : Q) :
  0 < width rect -> 0 <= duration -> x1 <= x2 ->
  exists t1 t2,
    handleTimelineClick (Some rect) x1 duration = Some t1
    /\ handleTimelineClick (Some rect) x2 duration = Some t2
    /\ t1 <= t2.
Proof.
  intros Hw Hd Hx. unfold handleTimelineClick.
  eexists _, _. split; [reflexivity |]. split; [reflexivity |].
  apply clamp_monotone. unfold newTime, Qdiv.
  destruct (inverse_positive (width rect) Hw) as [Hv _].
  set (v := / width rect) in *.
  assert ((x1 - left rect) * v <= (x2 - left rect) * v) as Hp by nra.
  apply Qmult_le_compat_r; assumption.
Qed.
End Geometry.

Lemma segments_drawn_inside_witness :
  let a :=
    VideoTimeline.mkSegment "5" 120 154 VideoTimeline.scene 0.94
      "Closing Scene" "bg-red-500" in
  let b :=
    VideoTimeline.mkSegment "4" 85 120 VideoTimeline.audio 0.85
      "Music Overlay" "bg-yellow-500" in
  (0 < 154 /\ VideoTimeline.within 154 a
   /\ ((0 <= VideoTimeline.getSegmentLeft 154 a
        /\ VideoTimeline.getSegmentLeft 154 a <= 100
        /\ 0 < VideoTimeline.getSegmentWidth 154 a
        /\ VideoTimeline.getSegmentWidth 154 a <= 100)
       /\ (VideoTimeline.start a <= VideoTimeline.start b ->
             VideoTimeline.getSegmentLeft 154 a
               <= VideoTimeline.getSegmentLeft 154 b)
       /\ (VideoTimeline.end_ a - VideoTimeline.start a
             <= VideoTimeline.end_ b - VideoTimeline.start b ->
             VideoTimeline.getSegmentWidth 154 a
               <= VideoTimeline.getSegmentWidth 154 b)))%Q.
Proof.
  intros a b.
  assert (0 < 154)%Q as Hd by reflexivity.
  assert (VideoTimeline.within 154 a) as Ha.
  { repeat split; try reflexivity; apply Qle_bool_iff; reflexivity. }
  exact (conj Hd (conj Ha (segments_drawn_inside 154 a b Hd Ha))).
Defined.

Lemma click_places_playhead_witness :
  let rect := VideoTimeline.mkRect 100 400 in
  (0 < VideoTimeline.width rect /\ 0 < 154
   /\ exists t,
        VideoTimeline.handleTimelineClick (Some rect) 300 154 = Some t
        /\ 0 <= VideoTimeline.getCurrentPosition t 154 <= 100
        /\ (300 <= VideoTimeline.left rect ->
              VideoTimeline.getCurrentPosition t 154 == 0)
        /\ (VideoTimeline.left rect + VideoTimeline.width rect <= 300 ->
              VideoTimeline.getCurrentPosition t 154 == 100)
        /\ (forall x2, 300 <= x2 ->
              exists t2,
                VideoTimeline.handleTimelineClick (Some rect) x2 154
                  = Some t2
                /\ VideoTimeline.getCurrentPosition t 154
                   <= VideoTimeline.getCurrentPosition t2 154))%Q.
Proof.
  intro rect.
  assert (0 < VideoTimeline.width rect)%Q as Hw by reflexivity.
  assert (0 < 154)%Q as Hd by reflexivity.
  exact (conj Hw (conj Hd (click_places_playhead rect 300 154 Hw Hd))).
Defined.

Lemma click_is_monotone_witness :
  let rect := VideoTimeline.mkRect 100 400 in
  (0 < VideoTimeline.width rect /\ 0 <= 154 /\ 200 <= 300
   /\ exists t1 t2,
        VideoTimeline.handleTimelineClick (Some rect) 200 154 = Some t1
        /\ VideoTimeline.handleTimelineClick (Some rect) 300 154 = Some t2
        /\ t1 <= t2)%Q.
Proof.
  intro rect.
  assert (0 < VideoTimeline.width rect)%Q as Hw by reflexivity.
  assert (0 <= 154)%Q as Hd by (apply Qle_bool_iff; reflexivity).
  assert (200 <= 300)%Q as Hx by (apply Qle_bool_iff; reflexivity).
  exact (conj Hw (conj Hd (conj Hx
           (click_is_monotone rect 200 300 154 Hw Hd Hx)))).
Defined.

(** ** Marks, labels and the selection *)

Section Marks.
Import VideoTimeline.
Local Open Scope Q_scope.

Lemma indices_spec (n i : Z) : In i (indices n) <-> (0 <= i < n)%Z.
Proof.
  unfold indices. rewrite in_map_iff. split.
  - intros (k & <- & Hk). apply in_seq in Hk. lia.
  - intro H. exists (Z.to_nat i). split; [lia |]. apply in_seq. lia.
Qed.

Lemma indices_length (n : Z) : List.length (indices n) = Z.to_nat n.
Proof. unfold indices. now rewrite length_map, length_seq. Qed.

(** A mark every [step] seconds, up to the last one within the video, is
    placed between 0 and 100 percent. *)
Lemma mark_inside (duration : Q) (step i : Z) :
  0 < duration -> (0 < step)%Z ->
  (0 <= i < Qfloor (duration / inject_Z step) + 1)%Z ->
  0 <= inject_Z i * inject_Z step / duration * 100 <= 100.
Proof.
  intros Hd Hs Hi.
  assert (0 < inject_Z step) as HS.
  { change 0 with (inject_Z 0). now rewrite <- Zlt_Qlt. }
  assert (0 <= inject_Z i) as Hi0.
  { change 0 with (inject_Z 0). rewrite <- Zle_Qle. lia. }
  assert (inject_Z i <= duration / inject_Z step) as Hi1.
  { eapply Qle_trans; [| apply Qfloor_le]. rewrite <- Zle_Qle. lia. }
  destruct (inverse_positive duration Hd) as [Hc Hdc].
  destruct (inverse_positive (inject_Z step) HS) as [Hv Hsv].
  unfold Qdiv in *.
  set (c := / duration) in *. set (v := / inject_Z step) in *.
  set (I := inject_Z i) in *. set (S := inject_Z step) in *.
  assert (I * S <= duration) as Hle by nra.
  split; nra.
Qed.

Lemma formatTime_shape (seconds : Q) :
  0 <= seconds ->
  formatTime seconds
    = (JS.toString (Qfloor seconds / 60) ++ ":"
         ++ String (JS.digit (Qfloor seconds mod 60 / 10))
              (String (JS.digit (Qfloor seconds mod 60 mod 10)) ""))%string.
Proof.
  intro Hs. destruct (minutes_seconds seconds Hs) as (Hm & Hsec & Hsum).
  cbn zeta in *. unfold formatTime.
  set (mins := JS.Math_floor (seconds / 60)) in *.
  set (secs := JS.Math_floor (JS.rem seconds 60)) in *.
  assert (Qfloor seconds / 60 = mins)%Z as ->
    by (symmetry; apply (Z.div_unique _ 60 mins secs); lia).
  assert (Qfloor seconds mod 60 = secs)%Z as ->
    by (symmetry; apply (Z.mod_unique _ 60 mins secs); lia).
  now rewrite two_digits_Z.
Qed.

(** X13. On a video of positive duration there is a mark for every full
    ten seconds and a label for every full thirty, the first at 0, and
    each is placed between 0 and 100 percent; the label of place [i] reads
    [i / 2] minutes and 00 or 30 seconds. *)
Theorem marks_and_labels_inside (duration : Q) :
  0 < duration ->
  List.length (timeMarkers duration)
    = Z.to_nat (Qfloor (duration / 10) + 1)
  /\ Forall (fun x => 0 <= x <= 100) (timeMarkers duration)
  /\ List.length (timeScale duration)
     = Z.to_nat (Qfloor (duration / 30) + 1)
  /\ Forall (fun xl => 0 <= fst xl <= 100) (timeScale duration)
  /\ (forall i : nat,
        (Z.of_nat i <= Qfloor (duration / 30))%Z ->
        nth_error (map snd (timeScale duration)) i
          = Some (JS.toString (Z.of_nat i / 2)
                    ++ (if Z.even (Z.of_nat i) then ":00" else ":30"))%string).
Proof.
  intro Hd. unfold timeMarkers, timeScale, JS.Math_floor.
  rewrite !length_map, !indices_length.
  split; [reflexivity |]. split; [| split; [reflexivity |]; split].
  - apply Forall_forall. intros x Hx. apply in_map_iff in Hx.
    destruct Hx as (i & <- & Hi). apply indices_spec in Hi.
    now apply (mark_inside duration 10 i).
  - apply Forall_forall. intros x Hx. apply in_map_iff in Hx.
    destruct Hx as (i & <- & Hi). apply indices_spec in Hi.
    cbn [fst]. now apply (mark_inside duration 30 i).
  - intros i Hi. rewrite map_map. cbn [snd].
    unfold indices. rewrite map_map, nth_error_map.
    rewrite nth_error_seq.
    assert ((i <? Z.to_nat (Qfloor (duration / 30) + 1))%nat = true) as ->
      by (apply Nat.ltb_lt; lia).
    cbn [option_map Nat.add]. f_equal.
    assert (0 <= inject_Z (Z.of_nat i) * 30) as H0.
    { change 30 with (inject_Z 30). rewrite <- inject_Z_mult.
      change 0 with (inject_Z 0). rewrite <- Zle_Qle. lia. }
    rewrite (formatTime_shape _ H0).
    change 30 with (inject_Z 30). rewrite <- inject_Z_mult, Qfloor_Z.
    assert (Z.of_nat i * 30 / 60 = Z.of_nat i / 2)%Z as ->.
    { rewrite <- (Z.div_mul_cancel_r _ 2 30) by lia. reflexivity. }
    f_equal. rewrite Zeven_mod.
    pose proof (Z.mod_pos_bound (Z.of_nat i) 2 ltac:(lia)) as Hb.
    assert (Z.of_nat i * 30 mod 60 = 30 * (Z.of_nat i mod 2))%Z as ->.
    { rewrite (Z.mul_comm _ 30).
      change 60%Z with (30 * 2)%Z. rewrite Z.mul_mod_distr_l by lia.
      reflexivity. }
    destruct (Z.of_nat i mod 2)%Z as [|[| |]|]; try lia; reflexivity.
Qed.
End Marks.

Lemma marks_and_labels_inside_witness :
  (0 < 154)%Q
  /\ (List.length (VideoTimeline.timeMarkers 154)
      = Z.to_nat (Qfloor (154 / 10) + 1)
      /\ Forall (fun x => 0 <= x <= 100)%Q (VideoTimeline.timeMarkers 154)
      /\ List.length (VideoTimeline.timeScale 154)
         = Z.to_nat (Qfloor (154 / 30) + 1)
      /\ Forall (fun xl => 0 <= fst xl <= 100)%Q
           (VideoTimeline.timeScale 154)
      /\ (forall i : nat,
            (Z.of_nat i <= Qfloor (154 / 30))%Z ->
            nth_error (map snd (VideoTimeline.timeScale 154)) i
              = Some (JS.toString (Z.of_nat i / 2)
                        ++ (if Z.even (Z.of_nat i) then ":00" else ":30"))
                  %string)).
Proof.
  assert (0 < 154)%Q as Hd by reflexivity.
  exact (conj Hd (marks_and_labels_inside 154 Hd)).
Defined.

Section Selection.
Import VideoTimeline.
Local Open Scope string_scope.

Lemma find_by_id (l : list TimelineSegment) (segment : TimelineSegment) :
  NoDup (map id l) -> In segment l ->
  find (fun s => String.eqb (id s) (id segment)) l = Some segment.
Proof.
  induction l as [|x rest IH]; intros Hnd Hin; [contradiction |].
  cbn [map] in Hnd. inversion Hnd as [|? ? Hx Hrest]; subst.
  cbn [find]. destruct Hin as [->|Hin].
  - now rewrite String.eqb_refl.
  - destruct (String.eqb_spec (id x) (id segment)) as [E|_].
    + exfalso. apply Hx. rewrite E. now apply in_map.
    + now apply IH.
Qed.

(** X14. When the drawn segments have pairwise different ids, a click on
    a segment that is not selected selects it and shows the details of that
    very segment, and a second click on it clears the selection and the
    details; a segment whose id is the empty string can be selected but its
    details are never shown.  The built-in segments have different,
    non-empty ids. *)
Theorem selection_shows_clicked_segment (segments : list TimelineSegment)
    (selected : option string) (segment : TimelineSegment) :
  NoDup (map id (timelineSegments segments)) ->
  In segment (timelineSegments segments) ->
  selected <> Some (id segment) ->
  clickSegment selected segment = Some (id segment)
  /\ clickSegment (clickSegment selected segment) segment = None
  /\ segmentDetails segments (clickSegment selected segment)
     = (if String.eqb (id segment) "" then None else Some segment)
  /\ segmentDetails segments None = None
  /\ NoDup (map id defaultSegments)
  /\ Forall (fun s => id s <> "") defaultSegments.
Proof.
  intros Hnd Hin Hsel.
  assert (clickSegment selected segment = Some (id segment)) as Hc.
  { unfold clickSegment. destruct selected as [sel|]; [| reflexivity].
    destruct (String.eqb_spec sel (id segment)) as [->|_];
      [now contradiction Hsel | reflexivity]. }
  rewrite Hc. split; [reflexivity |]. split; [| split; [| split; [| split]]].
  - unfold clickSegment. now rewrite String.eqb_refl.
  - unfold segmentDetails.
    destruct (String.eqb (id segment) ""); [reflexivity |].
    now apply find_by_id.
  - reflexivity.
  - cbn. repeat constructor; cbn; intuition discriminate.
  - repeat constructor; discriminate.
Qed.

Lemma selection_shows_clicked_segment_witness :
  let segment := mkSegment "3" 45 85 scene 0.89 "Main Content"
                   "bg-green-500" in
  (NoDup (map id (timelineSegments []))
   /\ In segment (timelineSegments [])
   /\ Some "1" <> Some (id segment))
  /\ (clickSegment (Some "1") segment = Some (id segment)
      /\ clickSegment (clickSegment (Some "1") segment) segment = None
      /\ segmentDetails [] (clickSegment (Some "1") segment)
         = (if String.eqb (id segment) "" then None else Some segment)
      /\ segmentDetails [] None = None
      /\ NoDup (map id defaultSegments)
      /\ Forall (fun s => id s <> "") defaultSegments).
Proof.
  intro segment.
  assert (NoDup (map id (timelineSegments []))) as H1
    by (cbn; repeat constructor; cbn; intuition discriminate).
  assert (In segment (timelineSegments [])) as H2
    by (cbn; auto).
  assert (Some "1" <> Some (id segment)) as H3 by discriminate.
  split; [repeat split; assumption |].
  apply (selection_shows_clicked_segment [] (Some "1") segment H1 H2 H3).
Defined.
End Selection.

(** ** Times as text *)

Section TimeText.
Local Open Scope string_scope.

Lemma length_append (s t : string) :
  String.length (s ++ t) = (String.length s + String.length t)%nat.
Proof. induction s as [|c s IH]; cbn; [reflexivity | now rewrite IH]. Qed.

(** Two strings that end in tails of the same length and are equal have
    equal heads and equal tails. *)
Lemma append_inv (s1 s2 t1 t2 : string) :
  String.length t1 = String.length t2 ->
  s1 ++ t1 = s2 ++ t2 -> s1 = s2 /\ t1 = t2.
Proof.
  revert s2. induction s1 as [|c s1 IH]; intros [|d s2] Hlen E; cbn in E.
  - auto.
  - exfalso. apply (f_equal String.length) in E. cbn in E.
    rewrite length_append in E. lia.
  - exfalso. apply (f_equal String.length) in E. cbn in E.
    rewrite length_append in E. lia.
  - injection E as -> E. destruct (IH s2 Hlen E) as [-> ->]. auto.
Qed.

Lemma digit_inj (a b : Z) :
  (0 <= a < 10)%Z -> (0 <= b < 10)%Z -> JS.digit a = JS.digit b -> a = b.
Proof.
  intros Ha Hb E. unfold JS.digit in E.
  apply (f_equal nat_of_ascii) in E.
  rewrite !nat_ascii_embedding in E by lia. lia.
Qed.

(** X15. Two non-negative times are written the same by [formatTime]
    exactly when they lie in the same whole second: the text determines the
    whole seconds and nothing more. *)
Theorem formatTime_same_iff_same_second (a b : Q) :
  (0 <= a)%Q -> (0 <= b)%Q ->
  (VideoTimeline.formatTime a = VideoTimeline.formatTime b
   <-> Qfloor a = Qfloor b).
Proof.
  intros Ha Hb. rewrite (formatTime_shape a Ha), (formatTime_shape b Hb).
  split; [| now intros ->].
  intro E. apply append_inv in E; [| reflexivity].
  destruct E as [Em Es]. apply toString_inj in Em.
  injection Es as E1 E0.
  pose proof (Z.mod_pos_bound (Qfloor a) 60 ltac:(lia)) as Ba.
  pose proof (Z.mod_pos_bound (Qfloor b) 60 ltac:(lia)) as Bb.
  apply digit_inj in E1;
    [| split; [apply Z.div_pos; lia | apply Z.div_lt_upper_bound; lia]..].
  apply digit_inj in E0; [| apply Z.mod_pos_bound; lia..].
  rewrite (Z.div_mod (Qfloor a) 60), (Z.div_mod (Qfloor b) 60) by lia.
  rewrite (Z.div_mod (Qfloor a mod 60) 10),
          (Z.div_mod (Qfloor b mod 60) 10) by lia.
  congruence.
Qed.

Lemma formatTime_same_iff_same_second_witness :
  ((0 <= 154)%Q /\ (0 <= 154.75)%Q)
  /\ (VideoTimeline.formatTime 154 = VideoTimeline.formatTime 154.75
      <-> Qfloor 154 = Qfloor 154.75).
Proof.
  assert (0 <= 154)%Q as Ha by (unfold Qle; simpl; lia).
  assert (0 <= 154.75)%Q as Hb by (unfold Qle; simpl; lia).
  split; [split; assumption |].
  apply (formatTime_same_iff_same_second 154 154.75 Ha Hb).
Defined.

Lemma negative_two_chars (n : nat) :
  (n < 60)%nat ->
  JS.padStart 2 "0" (JS.toString (- Z.of_nat (S n)))
    = JS.toString (- Z.of_nat (S n)).
Proof.
  intro H. do 60 (destruct n as [|n]; [reflexivity |]). lia.
Qed.

(** X16. For a negative time [formatTime] does not write a time of day:
    the minutes are negative and the seconds field is between -60 and 0;
    when it is below 0 it is written with its sign and without padding, as
    in "-1:-1" for -1 and "-2:-30" for -90. *)
Theorem formatTime_negative (seconds : Q) :
  (seconds < 0)%Q ->
  let mins := JS.Math_floor (seconds / 60) in
  let secs := JS.Math_floor (JS.rem seconds 60) in
  (mins < 0)%Z /\ (-60 <= secs <= 0)%Z
  /\ (secs < 0 ->
        VideoTimeline.formatTime seconds
          = JS.toString mins ++ ":" ++ JS.toString secs)%Z
  /\ VideoTimeline.formatTime (-1) = "-1:-1"
  /\ VideoTimeline.formatTime (-90) = "-2:-30".
Proof.
  intros Hs mins secs.
  assert (seconds / 60 == seconds * (1 # 60))%Q as Hdiv by reflexivity.
  assert (mins < 0)%Z as Hm.
  { subst mins. unfold JS.Math_floor. apply Qfloor_lt.
    change (inject_Z 0) with 0%Q. lra. }
  assert (-60 <= secs <= 0)%Z as Hsec.
  { subst secs. unfold JS.Math_floor, JS.rem, JS.trunc.
    assert (Qle_bool 0 (seconds / 60) = false) as ->.
    { apply not_true_iff_false. rewrite Qle_bool_iff. lra. }
    pose proof (Qle_ceiling (seconds / 60)) as Hc.
    pose proof (Qceiling_lt (seconds / 60)) as Hc'.
    rewrite inject_Z_sub in Hc'. change (inject_Z 1) with 1%Q in Hc'.
    set (q := inject_Z (Qceiling (seconds / 60))) in *.
    split.
    - apply Qfloor_ge. change (inject_Z (-60)) with (-60)%Q. lra.
    - assert (Qfloor (seconds - 60 * q) < 1)%Z; [| lia].
      apply Qfloor_lt. change (inject_Z 1) with 1%Q. lra. }
  split; [exact Hm |]. split; [exact Hsec |].
  split; [| split; reflexivity].
  intro Hneg. unfold VideoTimeline.formatTime. fold mins. fold secs.
  assert (secs = - Z.of_nat (S (Z.to_nat (- secs - 1))))%Z as E by lia.
  rewrite E, negative_two_chars by lia. reflexivity.
Qed.

Lemma formatTime_negative_witness :
  (-90 < 0)%Q
  /\ (let mins := JS.Math_floor (-90 / 60) in
      let secs := JS.Math_floor (JS.rem (-90) 60) in
      (mins < 0)%Z /\ (-60 <= secs <= 0)%Z
      /\ (secs < 0 ->
            VideoTimeline.formatTime (-90)
              = JS.toString mins ++ ":" ++ JS.toString secs)%Z
      /\ VideoTimeline.formatTime (-1) = "-1:-1"
      /\ VideoTimeline.formatTime (-90) = "-2:-30").
Proof.
  assert (-90 < 0)%Q as H by reflexivity.
  split; [exact H |].
  apply (formatTime_negative (-90) H).
Defined.
End TimeText.

(** ** Estimates over the controls *)

Section Controls.
Import ExportOptions.
Local Open Scope string_scope.







(** X19. A resolution that is neither one of the four keys of the table
    nor the name of a member of [Object.prototype] is estimated as
    1920x1080 at the same quality; this is the case of the Instagram and
    TikTok presets, whose resolutions 1080x1080 and 1080x1920 are neither. *)
Theorem unknown_resolution_estimated_as_1080p (settings : ExportSettings) :
  ~ In (resolution settings)
       ["3840x2160"; "1920x1080"; "1280x720"; "854x480"] ->
  inherited (resolution settings) = false ->
  updateEstimates settings
    = updateEstimates
        (mkSettings (format settings) "1920x1080" (quality settings)
           (bitrate settings) (fps settings) (codec settings)
           (audioQuality settings) (includeSubtitles settings)
           (watermark settings))
  /\ lookup (resolution settings) resolutionTable = None
  /\ (forall s, option_map resolution (handlePresetSelect "instagram" s)
                = Some "1080x1080"
                /\ option_map resolution (handlePresetSelect "tiktok" s)
                   = Some "1080x1920")
  /\ (inherited "1080x1080" = false /\ inherited "1080x1920" = false).
Proof.
  intros Hn _.
  assert (lookup (resolution settings) resolutionTable = None) as Hl.
  { unfold resolutionTable. cbn [lookup].
    repeat match goal with
           | |- context [String.eqb ?k (resolution settings)] =>
               destruct (String.eqb_spec k (resolution settings)) as [E|_];
               [exfalso; apply Hn; rewrite <- E; cbn; auto 6 |]
           end.
    reflexivity. }
  split; [| split; [exact Hl | split; [intro s |]; split; reflexivity]].
  unfold updateEstimates. cbn [resolution quality]. now rewrite Hl.
Qed.

Lemma unknown_resolution_estimated_as_1080p_witness :
  let settings :=
    mkSettings "mp4" "1080x1080" 75 6000 30 "h264" 192 false false in
  (~ In (resolution settings)
        ["3840x2160"; "1920x1080"; "1280x720"; "854x480"]
   /\ inherited (resolution settings) = false)
  /\ (updateEstimates settings
      = updateEstimates
          (mkSettings (format settings) "1920x1080" (quality settings)
             (bitrate settings) (fps settings) (codec settings)
             (audioQuality settings) (includeSubtitles settings)
             (watermark settings))
      /\ lookup (resolution settings) resolutionTable = None
      /\ (forall s,
            option_map resolution (handlePresetSelect "instagram" s)
            = Some "1080x1080"
            /\ option_map resolution (handlePresetSelect "tiktok" s)
               = Some "1080x1920")
      /\ (inherited "1080x1080" = false
          /\ inherited "1080x1920" = false)).
Proof.
  intro settings.
  assert (~ In (resolution settings)
              ["3840x2160"; "1920x1080"; "1280x720"; "854x480"]) as H
    by (cbn; intuition discriminate).
  assert (inherited (resolution settings) = false) as Hi by reflexivity.
  exact (conj (conj H Hi)
           (unknown_resolution_estimated_as_1080p settings H Hi)).
Defined.
End Controls.

(** ** The preset cards *)

Section Presets.
Import ExportOptions.

(** X20. Every card of the preset list has its case in the handler, and
    the size the card announces is never the estimate shown once the preset
    is selected, whatever the settings were before: the estimates are 36,
    34, 34, 18, 171 and 7 MB for cards that say 45, 32, 28, 22, 180 and
    12. *)
Theorem preset_card_size_differs_from_estimate (preset : Preset.t)
    (customSettings : ExportSettings) :
  In preset exportPresets ->
  exists newSettings n,
    handlePresetSelect (Preset.id preset) customSettings = Some newSettings
    /\ estimatedSizeMB (updateEstimates newSettings) = float_of_Z n
    /\ In n [36; 34; 34; 18; 171; 7]%Z
    /\ Preset.size preset <> estimatedSizeText n.
Proof.
  intro H. cbn [In exportPresets] in H.
  destruct H as [<-|[<-|[<-|[<-|[<-|[<-|[]]]]]]];
    [ eexists _, 36%Z | eexists _, 34%Z | eexists _, 34%Z
    | eexists _, 18%Z | eexists _, 171%Z | eexists _, 7%Z ];
    (split; [reflexivity |]);
    (split; [vm_compute; reflexivity |]);
    (split; [cbn; tauto |]);
    vm_compute; discriminate.
Qed.
End Presets.

Lemma preset_card_size_differs_from_estimate_witness :
  let preset :=
    ExportOptions.Preset.mk "youtube" "YouTube"
      "Optimized for YouTube upload" "MP4" "1920×1080" "High" "~45 MB"
      true in
  In preset ExportOptions.exportPresets
  /\ exists newSettings n,
       ExportOptions.handlePresetSelect (ExportOptions.Preset.id preset)
         ExportOptions.initialSettings = Some newSettings
       /\ ExportOptions.estimatedSizeMB
            (ExportOptions.updateEstimates newSettings)
          = ExportOptions.float_of_Z n
       /\ In n [36; 34; 34; 18; 171; 7]%Z
       /\ ExportOptions.Preset.size preset
          <> ExportOptions.estimatedSizeText n.
Proof.
  intro preset.
  assert (In preset ExportOptions.exportPresets) as H
    by (left; reflexivity).
  exact (conj H (preset_card_size_differs_from_estimate preset
                   ExportOptions.initialSettings H)).
Defined.

(** ** The insights panel *)

Section Insights.
Import AIProcessingInsights.
Local Open Scope Q_scope.

(** X21. The phase label goes through the eight phases in order, one per
    run of the interval's callback, and is never undefined; the ninth run
    clears the interval, and the label then stays at the last phase. *)
Theorem phase_label_sequence (n : nat) (currentPhase : string) :
  phaseTicks n 0 currentPhase
    = match n with
      | O => (App.Running, 0%nat, currentPhase)
      | S k =>
          if (n <=? 8)%nat
          then (App.Running, n, nth k phases "undefined"%string)
          else (App.Cleared, 8%nat, "Finalizing AI insights..."%string)
      end
  /\ ((0 < n <= 8)%nat -> In (snd (phaseTicks n 0 currentPhase)) phases).
Proof.
  split.
  - do 9 (destruct n as [|n]; [reflexivity |]). reflexivity.
  - intros [H0 H8].
    do 9 (destruct n as [|n]; [try lia; cbn; auto 10 |]). lia.
Qed.



Variable rnd : nat -> Q.
Hypothesis rnd_closed : JS.closed_draws rnd.



(** X23. The callback of one insight and the arrival of another leave an
    insight made for a different template index as it is, at its place in
    the list. *)
Theorem insights_are_separate (index other : nat) (template : Template.t)
    (progress : Q) (prev : list AIInsight) (k j : nat) (x : AIInsight) :
  index <> other ->
  id x = ("insight-" ++ JS.toString (Z.of_nat other))%string ->
  nth_error prev j = Some x ->
  nth_error
    (snd (fst (progressTick (id (newInsight index template)) progress prev
                 rnd k))) j = Some x
  /\ nth_error (spawn index template prev) j = Some x.
Proof.
  intros Hne Hid Hj.
  assert (String.eqb (id x) (id (newInsight index template)) = false) as E.
  { apply String.eqb_neq. rewrite Hid. cbn [id newInsight]. intro H.
    cbn in H. injection H as H. apply toString_inj in H. lia. }
  split.
  - unfold progressTick, JS.bind, JS.Math_random.
    destruct (JS.geb (progress + (rnd k * 15 + 5)) 100);
      unfold JS.ret; cbn [fst snd]; unfold mapInsight;
      rewrite nth_error_map, Hj; cbn [option_map]; now rewrite E.
  - unfold spawn. rewrite nth_error_app1; [exact Hj |].
    apply nth_error_Some. now rewrite Hj.
Qed.
End Insights.


Lemma insights_are_separate_witness :
  let template :=
    AIProcessingInsights.Template.mk AIProcessingInsights.audio_analysis
      "Audio Analysis" "Processing audio tracks" 0.87 [] [] in
  let x := AIProcessingInsights.newInsight 0%nat template in
  let prev := [x; AIProcessingInsights.newInsight 1%nat template] in
  let newId :=
    AIProcessingInsights.id
      (AIProcessingInsights.newInsight 1%nat template) in
  1%nat <> 0%nat
  /\ AIProcessingInsights.id x
     = ("insight-" ++ JS.toString (Z.of_nat 0%nat))%string
  /\ nth_error prev 0%nat = Some x
  /\ (nth_error
        (snd (fst (AIProcessingInsights.progressTick newId 50 prev
                     (fun _ => (1 # 2)%Q) 0%nat))) 0%nat = Some x
      /\ nth_error (AIProcessingInsights.spawn 1%nat template prev) 0%nat
         = Some x).
Proof.
  intros template x prev newId.
  split; [discriminate |]. split; [reflexivity |]. split; [reflexivity |].
  exact (insights_are_separate (fun _ => (1 # 2)%Q) 1%nat 0%nat template
           50 prev 0%nat 0%nat x (Nat.neq_succ_0 0) eq_refl eq_refl).
Defined.
